(** * gvgai-web: the relay between the GVGAI game loop and an LLM backend

    A shallow embedding of the JavaScript sources

    - [lib/response-parser.js]  ([parseAction], [VALID_ACTIONS]),
    - [lib/state-converter.js]  ([resolveTemplate], [buildPrompt]),
    - [lib/llm-client.js]       (class [LLMClient]),

    followed by the properties of the specification that were checked
    against them.

    Conventions of the model.
    - A JavaScript string is a [string]: a sequence of 8-bit characters.
      The model covers ASCII text; [toUpperCase] and the character classes
      [\s] and [\w] are the ASCII ones.  None of the general theorems below
      depends on how [toUpperCase] treats a character.
    - Numbers of a state observation are integers ([Z]) printed in decimal.
    - [console.*] output is not part of the observable trace, with the
      exception of the "cannot send" error of [sendMessageWithId].
    - A chunk read from the socket is a sequence of bytes; the decoder
      that [handleData] applies to it is a parameter of the model. *)

From Stdlib Require Import String Ascii List ZArith Bool Lia.
From Stdlib Require Import DecimalString.
From Stdlib Require Decimal DecimalFacts DecimalZ.
Import ListNotations.

Open Scope string_scope.
Open Scope list_scope.

Notation "a +++ b" := (String.append a b) (at level 60, right associativity).

(* ===================================================================== *)
(** ** JavaScript string primitives *)
(* ===================================================================== *)

Module JS.

(** [!s] for a string [s]: only the empty string is falsy. *)
Definition falsy (s : string) : bool :=
  match s with EmptyString => true | String _ _ => false end.

(** [s.startsWith(p)]. *)
Fixpoint startsWith (s p : string) : bool :=
  match p, s with
  | EmptyString, _ => true
  | String _ _, EmptyString => false
  | String a p', String b s' => Ascii.eqb a b && startsWith s' p'
  end.

(** [s.includes(t)]: [t] starts at some index of [s]. *)
Fixpoint includes (s t : string) : bool :=
  startsWith s t ||
  match s with
  | EmptyString => false
  | String _ s' => includes s' t
  end.

(** What is left of [s] after the literal [p], when [s] starts with it. *)
Fixpoint dropPrefix (p s : string) : option string :=
  match p, s with
  | EmptyString, _ => Some s
  | String _ _, EmptyString => None
  | String a p', String b s' =>
      if Ascii.eqb a b then dropPrefix p' s' else None
  end.

Definition code (c : ascii) : nat := nat_of_ascii c.

Definition between (lo hi : nat) (c : ascii) : bool :=
  (lo <=? code c)%nat && (code c <=? hi)%nat.

(** The class [\s]: tab, line feed, vertical tab, form feed, carriage
    return and space. *)
Definition isSpace (c : ascii) : bool :=
  between 9 13 c || (code c =? 32)%nat.

(** The class [\w]: [A-Za-z0-9_]. *)
Definition isWord (c : ascii) : bool :=
  between 65 90 c || between 97 122 c || between 48 57 c || (code c =? 95)%nat.

Definition upperChar (c : ascii) : ascii :=
  if between 97 122 c then ascii_of_nat (code c - 32) else c.

(** [s.toUpperCase()]. *)
Fixpoint toUpperCase (s : string) : string :=
  match s with
  | EmptyString => EmptyString
  | String c s' => String (upperChar c) (toUpperCase s')
  end.

(** A greedy [\s*]: the input after its leading white space. *)
Fixpoint skipSpaces (s : string) : string :=
  match s with
  | EmptyString => EmptyString
  | String c s' => if isSpace c then skipSpaces s' else s
  end.

(** A greedy [\w*]: the longest prefix of word characters. *)
Fixpoint takeWord (s : string) : string :=
  match s with
  | EmptyString => EmptyString
  | String c s' => if isWord c then String c (takeWord s') else EmptyString
  end.

(** [s.split(sep)] for a one-character separator: never the empty list. *)
Fixpoint split (sep : ascii) (s : string) : list string :=
  match s with
  | EmptyString => [EmptyString]
  | String c s' =>
      if Ascii.eqb c sep then EmptyString :: split sep s'
      else match split sep s' with
           | [] => [String c EmptyString]
           | p :: ps => String c p :: ps
           end
  end.

(** [parts.join(sep)]. *)
Fixpoint join (sep : string) (parts : list string) : string :=
  match parts with
  | [] => EmptyString
  | [p] => p
  | p :: ps => p +++ sep +++ join sep ps
  end.

(** [s.trim()]: white space removed at both ends. *)
Fixpoint trimEnd (s : string) : string :=
  match s with
  | EmptyString => EmptyString
  | String c s' =>
      match trimEnd s' with
      | EmptyString => if isSpace c then EmptyString else String c EmptyString
      | t => String c t
      end
  end.

Definition trim (s : string) : string := trimEnd (skipSpaces s).

(** Whether the character [c] occurs in [s]. *)
Fixpoint hasChar (c : ascii) (s : string) : bool :=
  match s with
  | EmptyString => false
  | String x s' => Ascii.eqb x c || hasChar c s'
  end.

(** [s.substring(0, n)]. *)
Fixpoint take (n : nat) (s : string) : string :=
  match n, s with
  | O, _ => EmptyString
  | _, EmptyString => EmptyString
  | S n', String c s' => String c (take n' s')
  end.

(** [String(n)] for an integer [n]. *)
Definition numberToString (n : Z) : string :=
  NilZero.string_of_int (Z.to_int n).

End JS.

(* ===================================================================== *)
(** ** lib/response-parser.js *)
(* ===================================================================== *)

Module ResponseParser.
Import JS.

Definition ACTION_NIL : string := "ACTION_NIL".

Definition VALID_ACTIONS : list string :=
  [ "ACTION_NIL"; "ACTION_UP"; "ACTION_DOWN"; "ACTION_LEFT";
    "ACTION_RIGHT"; "ACTION_USE"; "ACTION_ESCAPE" ].

(** The regular expression [/ACTION:\s*(ACTION_\w+)/] tried at the start
    of [s]; the result is the capture group.  After the literal
    [ACTION:] the greedy [\s*] has to take every white space character
    (a shorter choice leaves a white space where [A] is required), and
    the greedy [\w+], which ends the pattern, takes the longest run. *)
Definition matchHere (s : string) : option string :=
  match dropPrefix "ACTION:" s with
  | None => None
  | Some r =>
      match dropPrefix "ACTION_" (skipSpaces r) with
      | None => None
      | Some w =>
          match takeWord w with
          | EmptyString => None
          | run => Some ("ACTION_" +++ run)
          end
      end
  end.

(** [text.match(/ACTION:\s*(ACTION_\w+)/)]: the leftmost match, as
    [match[1]]. *)
Fixpoint regexMatch (s : string) : option string :=
  match matchHere s with
  | Some m1 => Some m1
  | None =>
      match s with
      | EmptyString => None
      | String _ s' => regexMatch s'
      end
  end.

(** [availableActions.includes(x)]. *)
Definition member (x : string) (l : list string) : bool :=
  existsb (String.eqb x) l.

Definition parseAction (llmResponse : string)
                       (availableActions : list string) : string :=
  if falsy llmResponse then ACTION_NIL
  else
    let text := toUpperCase llmResponse in
    match find (fun action => includes text action) availableActions with
    | Some action => action
    | None =>
        match regexMatch text with
        | Some m1 => if member m1 availableActions then m1 else ACTION_NIL
        | None => ACTION_NIL
        end
    end.

(** The parser with its second tier removed: the guard on an empty
    response, the ordered substring search, and the fallback. *)
Definition parseAction_first_tier (llmResponse : string)
                                  (availableActions : list string) : string :=
  if falsy llmResponse then ACTION_NIL
  else
    match find (fun action => includes (toUpperCase llmResponse) action)
               availableActions with
    | Some action => action
    | None => ACTION_NIL
    end.

(** The contract of the specification (section 4.6), in its words: a
    token occurs in the text when it is a substring up to case. *)
Definition occurs_ci (token text : string) : bool :=
  includes (toUpperCase text) (toUpperCase token).

Definition parse_contract (text : string) (legal : list string) : string :=
  match find (fun token => occurs_ci token text) legal with
  | Some token => token
  | None =>
      match regexMatch (toUpperCase text) with
      | Some captured => if member captured legal then captured else ACTION_NIL
      | None => ACTION_NIL
      end
  end.

End ResponseParser.


(* ===================================================================== *)
(** ** lib/state-converter.js *)
(* ===================================================================== *)

Module StateConverter.
Import JS.

Definition nl : string := String (ascii_of_nat 10) EmptyString.

(** The em dash of the per-tick state block, as its UTF-8 bytes. *)
Definition emDash : string :=
  String (ascii_of_nat 226)
    (String (ascii_of_nat 128) (String (ascii_of_nat 148) EmptyString)).

(** The SerializableStateObservation received from the game; a field
    that the payload does not carry is [None] ([undefined]). *)
Record StateObservation := {
  gameScore : option Z;
  avatarHealthPoints : option Z;
  avatarMaxHealthPoints : option Z;
  gameTick : option Z;
  avatarPosition : option (Z * Z);
  availableActions : option (list string);
  gameWinner : option string
}.

(** The resolved prompt configuration (prompt-store.js,
    [resolveGamePromptConfig]); of [llmSettings] only [maxTokens]. *)
Record PromptConfig := {
  systemContent : option string;
  gameContent : option string;
  levelContent : option string;
  gameName : option string;
  maxTokens : option Z
}.

(** [x || d] for a number: [undefined] and [0] are falsy. *)
Definition numberOr (x : option Z) (d : Z) : Z :=
  match x with
  | Some v => if (v =? 0)%Z then d else v
  | None => d
  end.

(** [x || d] for a string: [undefined], [null] and the empty string are
    falsy. *)
Definition stringOr (x : option string) (d : string) : string :=
  match x with
  | Some v => if falsy v then d else v
  | None => d
  end.

(** [sso.availableActions || ['ACTION_NIL']]: every array is truthy. *)
Definition actionsOr (x : option (list string)) : list string :=
  match x with
  | Some l => l
  | None => ["ACTION_NIL"]
  end.

Definition buildDescriptivePrompt (sso : StateObservation) : string :=
  "You are playing a 2D game. Make decisions to survive and win." +++ nl +++
  "Score: " +++ numberToString (numberOr (gameScore sso) 0) +++
  " | Health: " +++ numberToString (numberOr (avatarHealthPoints sso) 100) +++
  " | Tick: " +++ numberToString (numberOr (gameTick sso) 0) +++ nl +++ nl +++
  "Available actions: " +++ join ", " (actionsOr (availableActions sso)) +++
  nl +++ nl +++
  "Choose ONE action. Respond with ONLY the action name (e.g., ACTION_UP).".

(** The own properties of the object literal [vars], each already
    converted by [String(...)]. *)
Definition vars (sso : StateObservation) (extraGameName : option string)
  : list (string * string) :=
  [ ("gameName", stringOr extraGameName "unknown");
    ("gameScore", numberToString (numberOr (gameScore sso) 0));
    ("avatarHealthPoints", numberToString (numberOr (avatarHealthPoints sso) 0));
    ("gameTick", numberToString (numberOr (gameTick sso) 0));
    ("availableActions", join ", " (actionsOr (availableActions sso)));
    ("avatarPosition",
      match avatarPosition sso with
      | Some (x, y) => "(" +++ numberToString x +++ ", " +++ numberToString y +++ ")"
      | None => "(0, 0)"
      end) ].

(** [vars] is an object literal, so its prototype is [Object.prototype]:
    these are the properties every such object inherits, with the text
    [String(...)] gives for each (a native function prints its name). *)
Definition nativeFunction (name : string) : string * string :=
  (name, "function " +++ name +++ "() { [native code] }").

Definition objectPrototype : list (string * string) :=
  [ ("constructor", "function Object() { [native code] }");
    nativeFunction "__defineGetter__";
    nativeFunction "__defineSetter__";
    nativeFunction "hasOwnProperty";
    nativeFunction "__lookupGetter__";
    nativeFunction "__lookupSetter__";
    nativeFunction "isPrototypeOf";
    nativeFunction "propertyIsEnumerable";
    nativeFunction "toString";
    nativeFunction "valueOf";
    ("__proto__", "[object Object]");
    nativeFunction "toLocaleString" ].

Fixpoint assoc (key : string) (props : list (string * string)) : option string :=
  match props with
  | [] => None
  | (k, v) :: rest => if String.eqb key k then Some v else assoc key rest
  end.

(** [obj[key]] converted by [String(...)]; [None] is [undefined]. *)
Definition getProperty (own : list (string * string)) (key : string)
  : option string :=
  match assoc key own with
  | Some v => Some v
  | None => assoc key objectPrototype
  end.

(** A placeholder name: word characters only. *)
Fixpoint allWord (s : string) : bool :=
  match s with
  | EmptyString => true
  | String c s' => isWord c && allWord s'
  end.

(** What follows the longest run of word characters. *)
Fixpoint dropWord (s : string) : string :=
  match s with
  | EmptyString => EmptyString
  | String c s' => if isWord c then dropWord s' else s
  end.

(** The regular expression [/\{\{(\w+)\}\}/] tried at the start of
    [s]: the captured key.  The greedy [\w+] must take the whole run of
    word characters, a closing brace not being one. *)
Definition placeholderHere (s : string) : option string :=
  match dropPrefix "{{" s with
  | None => None
  | Some r =>
      match takeWord r with
      | EmptyString => None
      | key =>
          match dropPrefix "}}" (dropWord r) with
          | Some _ => Some key
          | None => None
          end
      end
  end.

(** [s.replace(/\{\{(\w+)\}\}/g, replacer)]: matches are found from
    left to right and do not overlap; [skip] counts the characters of the
    current match that are still to be passed over. *)
Fixpoint replaceFrom (replacer : string -> string -> string)
                     (skip : nat) (s : string) : string :=
  match s with
  | EmptyString => EmptyString
  | String c s' =>
      match skip with
      | S k => replaceFrom replacer k s'
      | O =>
          match placeholderHere s with
          | Some key =>
              replacer ("{{" +++ key +++ "}}") key +++
              replaceFrom replacer (String.length key + 3) s'
          | None => String c (replaceFrom replacer 0 s')
          end
      end
  end.

Definition replacePlaceholders (replacer : string -> string -> string)
                               (s : string) : string :=
  replaceFrom replacer 0 s.

Definition resolveTemplate (templateContent : option string)
                           (sso : StateObservation)
                           (extraGameName : option string) : option string :=
  match templateContent with
  | None => None
  | Some content =>
      if falsy content then None
      else
        let own := vars sso extraGameName in
        Some (replacePlaceholders
                (fun matched key =>
                   match getProperty own key with
                   | Some v => v
                   | None => matched
                   end)
                content)
  end.

Record Prompt := {
  systemMessage : option string;
  userMessage : string
}.

Definition tickState (sso : StateObservation) : string :=
  "Current State " +++ emDash +++
  " Score: " +++ numberToString (numberOr (gameScore sso) 0) +++
  " | Health: " +++ numberToString (numberOr (avatarHealthPoints sso) 100) +++
  " | Tick: " +++ numberToString (numberOr (gameTick sso) 0) +++ nl +++
  "Available actions: " +++ join ", " (actionsOr (availableActions sso)) +++
  nl +++ nl +++
  "Choose ONE action. Respond with ONLY the action name (e.g., ACTION_UP).".

(** [layers.filter(Boolean)]: [null] and the empty string are dropped. *)
Fixpoint filterBoolean (layers : list (option string)) : list string :=
  match layers with
  | [] => []
  | Some s :: rest =>
      if falsy s then filterBoolean rest else s :: filterBoolean rest
  | None :: rest => filterBoolean rest
  end.

Definition buildPrompt (sso : StateObservation)
                       (promptConfig : option PromptConfig) : Prompt :=
  match promptConfig with
  | None =>
      {| systemMessage := None; userMessage := buildDescriptivePrompt sso |}
  | Some cfg =>
      let extraGameName := gameName cfg in
      let system := resolveTemplate (systemContent cfg) sso extraGameName in
      let gameContext := resolveTemplate (gameContent cfg) sso extraGameName in
      let levelContext := resolveTemplate (levelContent cfg) sso extraGameName in
      {| systemMessage := system;
         userMessage :=
           join (nl +++ nl)
                (filterBoolean [gameContext; levelContext; Some (tickState sso)]) |}
  end.

End StateConverter.


(* ===================================================================== *)
(** ** lib/llm-client.js *)
(* ===================================================================== *)

Module LLMClient.
Import JS ResponseParser StateConverter.

Definition dq : string := String (ascii_of_nat 34) EmptyString.

(** The text ["phase":"<name>"] searched for by [processMessage]. *)
Definition phaseMarker (name : string) : string :=
  dq +++ "phase" +++ dq +++ ":" +++ dq +++ name +++ dq.

Inductive Phase := ACT | INIT | END | NoPhase.

(** The fields of [this] that the message path reads or writes.
    [socketReady] is [this.socket && !this.socket.destroyed],
    [ioAttached] is [this.io], [onSessionEnd] tells whether a callback is
    registered. *)
Record Session := {
  socketReady : bool;
  ioAttached : bool;
  buffer : string;
  gameActive : bool;
  pendingLLMAction : option string;
  llmCallInProgress : bool;
  lastLLMCallTime : Z;
  levelCount : nat;
  onSessionEnd : bool;
  gameId : option Z;
  clientGameName : string;
  promptConfig : option PromptConfig
}.

Definition set_socketReady (b : bool) (s : Session) : Session :=
  {| socketReady := b; ioAttached := ioAttached s; buffer := buffer s;
     gameActive := gameActive s; pendingLLMAction := pendingLLMAction s;
     llmCallInProgress := llmCallInProgress s;
     lastLLMCallTime := lastLLMCallTime s; levelCount := levelCount s;
     onSessionEnd := onSessionEnd s; gameId := gameId s;
     clientGameName := clientGameName s; promptConfig := promptConfig s |}.

Definition set_buffer (b : string) (s : Session) : Session :=
  {| socketReady := socketReady s; ioAttached := ioAttached s; buffer := b;
     gameActive := gameActive s; pendingLLMAction := pendingLLMAction s;
     llmCallInProgress := llmCallInProgress s;
     lastLLMCallTime := lastLLMCallTime s; levelCount := levelCount s;
     onSessionEnd := onSessionEnd s; gameId := gameId s;
     clientGameName := clientGameName s; promptConfig := promptConfig s |}.

Definition set_gameActive (b : bool) (s : Session) : Session :=
  {| socketReady := socketReady s; ioAttached := ioAttached s;
     buffer := buffer s; gameActive := b;
     pendingLLMAction := pendingLLMAction s;
     llmCallInProgress := llmCallInProgress s;
     lastLLMCallTime := lastLLMCallTime s; levelCount := levelCount s;
     onSessionEnd := onSessionEnd s; gameId := gameId s;
     clientGameName := clientGameName s; promptConfig := promptConfig s |}.

Definition set_pendingLLMAction (a : option string) (s : Session) : Session :=
  {| socketReady := socketReady s; ioAttached := ioAttached s;
     buffer := buffer s; gameActive := gameActive s; pendingLLMAction := a;
     llmCallInProgress := llmCallInProgress s;
     lastLLMCallTime := lastLLMCallTime s; levelCount := levelCount s;
     onSessionEnd := onSessionEnd s; gameId := gameId s;
     clientGameName := clientGameName s; promptConfig := promptConfig s |}.

Definition set_llmCallInProgress (b : bool) (s : Session) : Session :=
  {| socketReady := socketReady s; ioAttached := ioAttached s;
     buffer := buffer s; gameActive := gameActive s;
     pendingLLMAction := pendingLLMAction s; llmCallInProgress := b;
     lastLLMCallTime := lastLLMCallTime s; levelCount := levelCount s;
     onSessionEnd := onSessionEnd s; gameId := gameId s;
     clientGameName := clientGameName s; promptConfig := promptConfig s |}.

Definition set_lastLLMCallTime (t : Z) (s : Session) : Session :=
  {| socketReady := socketReady s; ioAttached := ioAttached s;
     buffer := buffer s; gameActive := gameActive s;
     pendingLLMAction := pendingLLMAction s;
     llmCallInProgress := llmCallInProgress s; lastLLMCallTime := t;
     levelCount := levelCount s; onSessionEnd := onSessionEnd s;
     gameId := gameId s; clientGameName := clientGameName s;
     promptConfig := promptConfig s |}.

Definition set_levelCount (n : nat) (s : Session) : Session :=
  {| socketReady := socketReady s; ioAttached := ioAttached s;
     buffer := buffer s; gameActive := gameActive s;
     pendingLLMAction := pendingLLMAction s;
     llmCallInProgress := llmCallInProgress s;
     lastLLMCallTime := lastLLMCallTime s; levelCount := n;
     onSessionEnd := onSessionEnd s; gameId := gameId s;
     clientGameName := clientGameName s; promptConfig := promptConfig s |}.

Definition set_onSessionEnd (b : bool) (s : Session) : Session :=
  {| socketReady := socketReady s; ioAttached := ioAttached s;
     buffer := buffer s; gameActive := gameActive s;
     pendingLLMAction := pendingLLMAction s;
     llmCallInProgress := llmCallInProgress s;
     lastLLMCallTime := lastLLMCallTime s; levelCount := levelCount s;
     onSessionEnd := b; gameId := gameId s;
     clientGameName := clientGameName s; promptConfig := promptConfig s |}.

Definition set_promptConfig (c : option PromptConfig) (s : Session) : Session :=
  {| socketReady := socketReady s; ioAttached := ioAttached s;
     buffer := buffer s; gameActive := gameActive s;
     pendingLLMAction := pendingLLMAction s;
     llmCallInProgress := llmCallInProgress s;
     lastLLMCallTime := lastLLMCallTime s; levelCount := levelCount s;
     onSessionEnd := onSessionEnd s; gameId := gameId s;
     clientGameName := clientGameName s; promptConfig := c |}.

(** Events broadcast to the browser with [this.io.emit]. *)
Inductive UiEvent :=
| GameState (score health maxHealth tick : option Z) (action : string)
| LlmError (status : Z) (message : string)
| LlmReasoning (prompt : string) (systemPrompt : option string)
               (response action : string)
| LevelEnd (score : option Z) (winner : option string) (ticks : option Z)
           (level : nat)
| SessionEnd (levelsPlayed : nat).

(** What the client does to the outside, in the order it does it.
    [LLMCallStarted t] marks the entry of [startAsyncLLMCall] with the
    clock reading [t] that it stores; [FetchPost] is the request sent to
    the backend (the messages and [max_tokens]). *)
Inductive Effect :=
| SocketWrite (frame : string)
| CannotSend
| IoEmit (e : UiEvent)
| LLMCallStarted (time : Z)
| FetchPost (messages : list (string * string)) (max_tokens : Z)
| SessionEndCallback.

(** The bytes of one chunk read from the socket. *)
Definition Buffer : Type := list Byte.byte.

(** The closure given to [setImmediate] by the ACT branch. *)
Record Deferred := {
  d_payload : string;
  d_action : string
}.

(** A call of [startAsyncLLMCall] suspended at [await fetch(...)], with
    the locals it reads when it resumes. *)
Record Invocation := {
  i_sso : StateObservation;
  i_prompt : Prompt
}.

(** The client on the event loop: its fields, the callbacks queued by
    [setImmediate] (oldest first) and the suspended backend calls. *)
Record World := {
  session : Session;
  immediates : list Deferred;
  inflight : list Invocation
}.

Definition with_session (s : Session) (w : World) : World :=
  {| session := s; immediates := immediates w; inflight := inflight w |}.

(** How the awaited backend exchange of one invocation ends. *)
Inductive Backend :=
| NetworkFailure
| HttpError (status : Z) (errorText : string)
| MalformedBody
| Body (choices : option (list (option string))).

(** [data.choices[0]?.message?.content || ''], [data.choices] being an
    array. *)
Definition responseContent (choices : list (option string)) : string :=
  match choices with
  | Some content :: _ => content
  | _ => EmptyString
  end.

Definition backendError (o : Backend) : bool :=
  match o with
  | Body (Some _) => false
  | _ => true
  end.

Definition detectPhase (jsonPayload : string) : Phase :=
  let head := take 2000 jsonPayload in
  let isACT := includes head (phaseMarker "ACT") in
  let isINIT := includes head (phaseMarker "INIT") in
  let isEND := includes head (phaseMarker "END") in
  let '(isACT, isINIT, isEND) :=
    if negb isACT && negb isINIT && negb isEND
    then (includes jsonPayload (phaseMarker "ACT"),
          includes jsonPayload (phaseMarker "INIT"),
          includes jsonPayload (phaseMarker "END"))
    else (isACT, isINIT, isEND) in
  if isACT then ACT
  else if isINIT then INIT
  else if isEND then END
  else NoPhase.

(** [message.split('#')[0]] and [message.split('#').slice(1).join('#')]. *)
Definition messageId (message : string) : string :=
  hd EmptyString (split "#" message).

Definition messagePayload (message : string) : string :=
  join "#" (tl (split "#" message)).

Definition sendMessageWithId (s : Session) (msgId msg : string) : list Effect :=
  if socketReady s
  then [SocketWrite (msgId +++ "#" +++ msg +++ nl)]
  else [CannotSend].

Definition _triggerSessionEnd (s : Session) : Session * list Effect :=
  if onSessionEnd s
  then (set_onSessionEnd false s, [SessionEndCallback])
  else (s, []).

Definition emit (s : Session) (e : UiEvent) : list Effect :=
  if ioAttached s then [IoEmit e] else [].

(** [this.pendingLLMAction || 'ACTION_NIL']. *)
Definition actionToSend (s : Session) : string :=
  stringOr (pendingLLMAction s) ACTION_NIL.

Section Client.

(** [JSON.parse] on a payload: [None] when it throws. *)
Variable JSON_parse : string -> option StateObservation.

(** [promptStore.resolveGamePromptConfig(gameId, levelId)], which
    reads the prompt dashboard's files and always returns an object
    (the default configuration when the game has none). *)
Variable resolveGamePromptConfig : option Z -> nat -> PromptConfig.

(** [if (cfg && !cfg.gameName) cfg.gameName = this.gameName]. *)
Definition withGameName (name : string) (cfg : PromptConfig) : PromptConfig :=
  if falsy (stringOr (gameName cfg) EmptyString)
  then {| systemContent := systemContent cfg;
          gameContent := gameContent cfg;
          levelContent := levelContent cfg;
          gameName := Some name;
          maxTokens := maxTokens cfg |}
  else cfg.

Definition handleInit (s : Session) (msgId : string) : Session * list Effect :=
  let s1 :=
    match gameId s with
    | Some _ =>
        set_promptConfig
          (Some (withGameName (clientGameName s)
                   (resolveGamePromptConfig (gameId s) (levelCount s)))) s
    | None => s
    end in
  (s1, sendMessageWithId s1 msgId "INIT_DONE#BOTH").

Definition handleEnd (s : Session) (sso : StateObservation) (msgId : string)
  : Session * list Effect :=
  let s1 := set_levelCount (S (levelCount s)) s in
  let s2 := set_pendingLLMAction None s1 in
  let s3 := set_llmCallInProgress false s2 in
  let s4 := set_lastLLMCallTime 0 s3 in
  (s4,
   emit s4 (LevelEnd (gameScore sso) (gameWinner sso) (gameTick sso)
                     (levelCount s4))
   ++ sendMessageWithId s4 msgId "END_DONE").

(** [processMessage(message)].  No operation of its [try] block throws
    in this model, so its [catch] handler does not appear; the
    assignment to [lastReceivedMessageId], a field nothing reads, is
    left out. *)
Definition processMessage (w : World) (message : string)
  : World * list Effect :=
  let s := session w in
  let msgId := messageId message in
  let jsonPayload := messagePayload message in
  if falsy jsonPayload then (w, [])
  else if String.eqb jsonPayload "START" then
    (w, sendMessageWithId s msgId "START_DONE")
  else if String.eqb jsonPayload "FINISH" then
    let s1 := set_gameActive false s in
    let out1 := emit s1 (SessionEnd (levelCount s1)) in
    let '(s2, out2) := _triggerSessionEnd s1 in
    (with_session s2 w, out1 ++ out2)
  else
    match detectPhase jsonPayload with
    | ACT =>
        let action := actionToSend s in
        ({| session := s;
            immediates := immediates w ++
                          [{| d_payload := jsonPayload; d_action := action |}];
            inflight := inflight w |},
         sendMessageWithId s msgId (action +++ "#IMAGE"))
    | INIT =>
        match JSON_parse jsonPayload with
        | Some _ =>
            let '(s1, out) := handleInit s msgId in (with_session s1 w, out)
        | None => (w, sendMessageWithId s msgId "INIT_FAILED")
        end
    | END =>
        match JSON_parse jsonPayload with
        | Some sso =>
            let '(s1, out) := handleEnd s sso msgId in (with_session s1 w, out)
        | None => (w, sendMessageWithId s msgId "END_FAILED")
        end
    | NoPhase => (w, [])
    end.

(** The loop of [handleData] over the complete lines of the buffer. *)
Fixpoint dispatch (w : World) (messages : list string) : World * list Effect :=
  match messages with
  | [] => (w, [])
  | m :: rest =>
      if falsy (trim m) then dispatch w rest
      else
        let '(w1, out1) := processMessage w (trim m) in
        let '(w2, out2) := dispatch w1 rest in
        (w2, out1 ++ out2)
  end.

(** [data.toString()] for the [Buffer] of a [data] event: the UTF-8
    decoder of the runtime.  The socket has no encoding set, so every
    chunk is decoded on its own. *)
Variable toString : Buffer -> string.

(** [handleData(data)]: the chunk is decoded and appended to the buffer,
    the complete lines of the buffer are dispatched in order, the
    unfinished rest stays in the buffer. *)
Definition handleData (w : World) (data : Buffer) : World * list Effect :=
  let messages :=
    split (ascii_of_nat 10) (buffer (session w) +++ toString data) in
  let w0 := with_session
              (set_buffer (last messages EmptyString) (session w)) w in
  dispatch w0 (removelast messages).

(** The messages array given to the backend. *)
Definition chatMessages (p : Prompt) : list (string * string) :=
  match systemMessage p with
  | Some m => if falsy m then [] else [("system", m)]
  | None => []
  end ++ [("user", userMessage p)].

Definition configuredMaxTokens (s : Session) : Z :=
  match promptConfig s with
  | Some cfg => numberOr (maxTokens cfg) 100
  | None => 100
  end.

(** [startAsyncLLMCall(jsonPayload)] up to its first [await]; [clock]
    is the reading of [Date.now()] it stores.  When [JSON.parse]
    throws, [catch] and [finally] run at once. *)
Definition startAsyncLLMCall (w : World) (jsonPayload : string) (clock : Z)
  : World * list Effect :=
  let s1 := set_lastLLMCallTime clock
              (set_llmCallInProgress true (session w)) in
  match JSON_parse jsonPayload with
  | None =>
      (with_session (set_llmCallInProgress false s1) w,
       [LLMCallStarted clock])
  | Some sso =>
      let p := buildPrompt sso (promptConfig s1) in
      ({| session := s1;
          immediates := immediates w;
          inflight := inflight w ++ [{| i_sso := sso; i_prompt := p |}] |},
       [LLMCallStarted clock;
        FetchPost (chatMessages p) (configuredMaxTokens s1)])
  end.

(** The oldest [setImmediate] callback of the ACT branch runs; [now]
    is the reading of [Date.now()] it compares with the last call
    time. *)
Definition runImmediate (w : World) (now clock : Z) : World * list Effect :=
  match immediates w with
  | [] => (w, [])
  | d :: rest =>
      let s := session w in
      let w1 := {| session := s; immediates := rest;
                   inflight := inflight w |} in
      let ui :=
        match JSON_parse (d_payload d) with
        | Some sso =>
            emit s (GameState (gameScore sso) (avatarHealthPoints sso)
                              (avatarMaxHealthPoints sso) (gameTick sso)
                              (d_action d))
        | None => []
        end in
      if negb (llmCallInProgress s) && (400 <=? now - lastLLMCallTime s)%Z
      then
        let '(w2, out) := startAsyncLLMCall w1 (d_payload d) clock in
        (w2, ui ++ out)
      else (w1, ui)
  end.

Fixpoint removeAt {A : Type} (k : nat) (l : list A) : list A :=
  match k, l with
  | _, [] => []
  | O, _ :: rest => rest
  | S k', x :: rest => x :: removeAt k' rest
  end.

(** The rest of [startAsyncLLMCall] for the [k]-th suspended call, once
    its backend exchange has ended with [outcome].  The function does
    not touch [this] between [await fetch] and the awaits on the
    response body, so the three suspensions are taken as one. *)
Definition settle (w : World) (k : nat) (outcome : Backend)
  : World * list Effect :=
  match nth_error (inflight w) k with
  | None => (w, [])
  | Some inv =>
      let s := session w in
      let finish (s' : Session) : World :=
        {| session := set_llmCallInProgress false s';
           immediates := immediates w;
           inflight := removeAt k (inflight w) |} in
      match outcome with
      | NetworkFailure => (finish s, [])
      | HttpError status errorText =>
          (finish s, emit s (LlmError status errorText))
      | MalformedBody => (finish s, [])
      | Body None => (finish s, [])
      | Body (Some choices) =>
          let llmResponse := responseContent choices in
          let action := parseAction llmResponse VALID_ACTIONS in
          let s1 := set_pendingLLMAction (Some action) s in
          (finish s1,
           emit s1 (LlmReasoning (userMessage (i_prompt inv))
                                 (systemMessage (i_prompt inv))
                                 llmResponse action))
      end
  end.

(** The socket's [close] handler; a socket that has closed is destroyed. *)
Definition socketClosed (w : World) : World * list Effect :=
  let '(s1, out) := _triggerSessionEnd (set_gameActive false (session w)) in
  (with_session (set_socketReady false s1) w, out).

(** [disconnect()]. *)
Definition disconnect (w : World) : World * list Effect :=
  (with_session
     (set_socketReady false
        (set_onSessionEnd false (set_gameActive false (session w)))) w,
   []).

(** One turn of the event loop. *)
Inductive Event :=
| Message (message : string)
| Immediate (now clock : Z)
| Settled (k : nat) (outcome : Backend)
| SocketClosed
| Disconnect.

Definition step (w : World) (e : Event) : World * list Effect :=
  match e with
  | Message m => processMessage w m
  | Immediate now clock => runImmediate w now clock
  | Settled k outcome => settle w k outcome
  | SocketClosed => socketClosed w
  | Disconnect => disconnect w
  end.

Fixpoint run (w : World) (events : list Event) : World * list Effect :=
  match events with
  | [] => (w, [])
  | e :: rest =>
      let '(w1, out1) := step w e in
      let '(w2, out2) := run w1 rest in
      (w2, out1 ++ out2)
  end.

(** The client after [new LLMClient()], the registration of the
    session-end callback and [connect(port, model, io, gameId,
    gameName)]. *)
Definition connected (io : bool) (game : option Z) (name : option string)
  : World :=
  let clientName := stringOr name "unknown" in
  {| session :=
       {| socketReady := true; ioAttached := io;
          buffer := EmptyString; gameActive := true;
          pendingLLMAction := None; llmCallInProgress := false;
          lastLLMCallTime := 0; levelCount := 0;
          onSessionEnd := true; gameId := game;
          clientGameName := clientName;
          promptConfig :=
            Some (withGameName clientName
                    (resolveGamePromptConfig game 0)) |};
     immediates := []; inflight := [] |}.

End Client.

End LLMClient.

(* ===================================================================== *)
(** ** Scenario data *)
(* ===================================================================== *)

Module Scenario.
Import JS ResponseParser StateConverter LLMClient.

Definition emptyObservation : StateObservation :=
  {| gameScore := None; avatarHealthPoints := None;
     avatarMaxHealthPoints := None; gameTick := None;
     avatarPosition := None; availableActions := None;
     gameWinner := None |}.

(** The payload [{"phase":"<name>"}]. *)
Definition phasePayload (name : string) : string :=
  "{" +++ phaseMarker name +++ "}".

(** [JSON.parse] on the payloads of the scenarios: the objects that
    carry a phase and no other field; every other text that a scenario
    sends is not JSON. *)
Definition parse (payload : string) : option StateObservation :=
  if String.eqb payload (phasePayload "ACT")
     || String.eqb payload (phasePayload "INIT")
     || String.eqb payload (phasePayload "END")
  then Some emptyObservation
  else None.

(** prompt-store.js, [defaultPromptConfig] without a stored template. *)
Definition defaultPromptConfig : PromptConfig :=
  {| systemContent :=
       Some "You are playing a 2D game. Respond with ONE action name.";
     gameContent := None; levelContent := None; gameName := None;
     maxTokens := Some 100%Z |}.

Definition resolve (_ : option Z) (_ : nat) : PromptConfig :=
  defaultPromptConfig.

(** A session connected without a game configuration. *)
Definition start : World := connected resolve true None None.

Definition frame (id payload : string) : string := id +++ "#" +++ payload.

(** A completed backend exchange whose first choice says [content]. *)
Definition answered (content : string) : Backend :=
  Body (Some [Some content]).

(** A tick whose payload was cut off before the phase could be read. *)
Definition truncatedPayload : string := "{" +++ dq +++ "phase" +++ dq +++ ":".

Definition tick : Event := Message (frame "1" (phasePayload "ACT")).

(** A call starts on a tick, the level ends, then the call completes. *)
Definition staleAfterEnd : list Event :=
  [ tick; Immediate 1000 1000;
    Message (frame "2" (phasePayload "END"));
    Settled 0 (answered "ACTION_UP") ].

(** A call starts on a tick, the socket closes, then the call completes. *)
Definition staleAfterClose : list Event :=
  [ tick; Immediate 1000 1000; SocketClosed;
    Settled 0 (answered "ACTION_UP") ].

(** Ticks 100 ms apart while the first call is in flight, and one after
    it has completed. *)
Definition burst : list Event :=
  [ tick; Immediate 1000 1001;
    tick; Immediate 1100 1100;
    tick; Immediate 1200 1200;
    Settled 0 (answered "ACTION_UP");
    tick; Immediate 1300 1300;
    tick; Immediate 1401 1402 ].

(** The world in which the call started by the first tick is in flight. *)
Definition calling : World :=
  fst (run parse resolve start [tick; Immediate 1000 1000]).

Definition sampleObservation : StateObservation :=
  {| gameScore := Some 42%Z; avatarHealthPoints := Some 3%Z;
     avatarMaxHealthPoints := Some 10%Z; gameTick := Some 7%Z;
     avatarPosition := Some (3, 4)%Z;
     availableActions := Some ["ACTION_UP"; "ACTION_USE"];
     gameWinner := None |}.

Definition sampleConfig (layer : string) : PromptConfig :=
  {| systemContent := None; gameContent := Some layer;
     levelContent := None; gameName := Some "aliens";
     maxTokens := None |}.

(** A call completes, then the level ends. *)
Definition endAfterCompletion : list Event :=
  [ tick; Immediate 1000 1000; Settled 0 (answered "ACTION_UP");
    Message (frame "2" (phasePayload "END")) ].

End Scenario.

(* ===================================================================== *)
(** ** Admission control: the vocabulary of the property *)
(* ===================================================================== *)

Module Admission.
Import LLMClient.

(** The clock readings stored by the calls that a trace starts. *)
Fixpoint startTimes (out : list Effect) : list Z :=
  match out with
  | [] => []
  | LLMCallStarted t :: rest => t :: startTimes rest
  | _ :: rest => startTimes rest
  end.



(** The message of the turn is an END message. *)
Definition isEND (e : Event) : bool :=
  match e with
  | Message m =>
      match detectPhase (messagePayload m) with
      | END => true
      | _ => false
      end
  | _ => false
  end.




End Admission.

(* ===================================================================== *)
(** ** Reading a trace *)
(* ===================================================================== *)

Module Trace.
Import JS StateConverter LLMClient.

(** The frames written to the socket, in order. *)
Fixpoint writes (out : list Effect) : list string :=
  match out with
  | [] => []
  | SocketWrite frame :: rest => frame :: writes rest
  | _ :: rest => writes rest
  end.

(** How often the session-end callback was called. *)
Fixpoint callbacks (out : list Effect) : nat :=
  match out with
  | [] => 0
  | SessionEndCallback :: rest => S (callbacks rest)
  | _ :: rest => callbacks rest
  end.

(** The level numbers announced by [level-end] events, in order. *)
Fixpoint levelEnds (out : list Effect) : list nat :=
  match out with
  | [] => []
  | IoEmit (LevelEnd _ _ _ level) :: rest => level :: levelEnds rest
  | _ :: rest => levelEnds rest
  end.

(** The requests sent to the backend, in order. *)
Fixpoint requests (out : list Effect) : list (list (string * string)) :=
  match out with
  | [] => []
  | FetchPost messages _ :: rest => messages :: requests rest
  | _ :: rest => requests rest
  end.

(** The world with another receive buffer. *)
Definition withBuffer (b : string) (w : World) : World :=
  with_session (set_buffer b (session w)) w.

(** The name that a configuration resolved for a client carries: its own
    when it has one, the client's otherwise. *)
Definition nameFor (client : string) (resolved : PromptConfig) : string :=
  match gameName resolved with
  | Some (String c rest) => String c rest
  | _ => client
  end.

(** The session holds [resolved] under the name [nameFor client resolved],
    its other fields as they were resolved. *)
Definition holds (client : string) (resolved : PromptConfig) (s : Session)
  : Prop :=
  exists cfg,
    promptConfig s = Some cfg /\
    gameName cfg = Some (nameFor client resolved) /\
    systemContent cfg = systemContent resolved /\
    gameContent cfg = gameContent resolved /\
    levelContent cfg = levelContent resolved /\
    maxTokens cfg = maxTokens resolved.

(** The configuration held was resolved, by [resolve], for the game of
    the session at one of the levels reached so far. *)
Definition resolvedSoFar (resolve : option Z -> nat -> PromptConfig)
    (game : option Z) (client : string) (w : World) : Prop :=
  gameId (session w) = game /\
  clientGameName (session w) = client /\
  exists lvl,
    (lvl <= levelCount (session w))%nat /\
    holds client (resolve game lvl) (session w).

(** One when a session-end callback is registered, zero otherwise. *)
Definition armed (s : Session) : nat :=
  if onSessionEnd s then 1%nat else 0%nat.

End Trace.

(* ===================================================================== *)
(** ** lib/prompt-store.js *)
(* ===================================================================== *)

Module PromptStore.
Import JS StateConverter.

(** A template file.  [content] is [None] when the file carries none. *)
Record Template := {
  t_id : string;
  t_name : string;
  t_layer : string;
  t_category : string;
  t_content : option string;
  t_createdAt : option string;
  t_updatedAt : option string
}.

(** An entry of [_index.json]. *)
Record IndexEntry := {
  e_id : string;
  e_name : string;
  e_layer : string;
  e_category : string
}.

(** [{ templateId, customOverride }]. *)
Record Context := {
  templateId : option string;
  customOverride : option string
}.

(** A game configuration file; a field that the file does not carry is
    [None].  [progressionContexts] is the object keyed by the level
    number in decimal; of [llmSettings] only [maxTokens]. *)
Record GameConfig := {
  gc_gameId : Z;
  gc_gameName : option string;
  systemTemplateId : option string;
  gameContext : option Context;
  progressionContexts : option (list (string * option Context));
  llmSettings : option (option Z)
}.

Definition CACHE_TTL_MS : Z := 30000.

(** A [Map] of the cache: the value and the time it was loaded. *)
Definition CacheMap (A : Type) : Type := list (string * (A * Z)).

Fixpoint mapGet {A : Type} (key : string) (m : CacheMap A) : option (A * Z) :=
  match m with
  | [] => None
  | (k, v) :: rest => if String.eqb key k then Some v else mapGet key rest
  end.

Fixpoint mapSet {A : Type} (key : string) (v : A * Z) (m : CacheMap A)
  : CacheMap A :=
  match m with
  | [] => [(key, v)]
  | (k, old) :: rest =>
      if String.eqb key k then (k, v) :: rest else (k, old) :: mapSet key v rest
  end.

(** [getCachedTemplate(id)]: [now] is the reading of [Date.now()] in the
    test, [clock] the one stored with a fresh value; [getTemplate] reads
    the disk. *)
Definition getCachedTemplate (getTemplate : string -> option Template)
    (cache : CacheMap Template) (now clock : Z) (id : string)
  : option Template * CacheMap Template :=
  let fresh :=
    match getTemplate id with
    | Some data => (Some data, mapSet id (data, clock) cache)
    | None => (None, cache)
    end in
  match mapGet id cache with
  | Some (data, loadedAt) =>
      if (now - loadedAt <? CACHE_TTL_MS)%Z then (Some data, cache) else fresh
  | None => fresh
  end.

(** [invalidateCache()], for the templates. *)
Definition invalidateCache (cache : CacheMap Template) : CacheMap Template := [].

(** [index.templates.findIndex(t => t.id === id)]. *)
Fixpoint findIndex (id : string) (entries : list IndexEntry) : option nat :=
  match entries with
  | [] => None
  | e :: rest =>
      if String.eqb (e_id e) id then Some O
      else match findIndex id rest with
           | Some i => Some (S i)
           | None => None
           end
  end.

(** [entries[i] = entry] for an index inside the array. *)
Fixpoint setAt (i : nat) (entry : IndexEntry) (entries : list IndexEntry)
  : list IndexEntry :=
  match i, entries with
  | _, [] => []
  | O, _ :: rest => entry :: rest
  | S i', e :: rest => e :: setAt i' entry rest
  end.

(** [saveTemplate(template)]: [now] is [new Date().toISOString()],
    [entries] the templates of the index that [readIndex()] returns.
    The result is the template written to its file and the index written
    back; the cache is invalidated. *)
Definition saveTemplate (now : string) (entries : list IndexEntry)
    (template : Template) : Template * list IndexEntry :=
  let saved :=
    {| t_id := t_id template; t_name := t_name template;
       t_layer := t_layer template; t_category := t_category template;
       t_content := t_content template;
       t_createdAt :=
         Some (match t_createdAt template with
               | Some c => if falsy c then now else c
               | None => now
               end);
       t_updatedAt := Some now |} in
  let entry :=
    {| e_id := t_id saved; e_name := t_name saved;
       e_layer := t_layer saved; e_category := t_category saved |} in
  (saved,
   match findIndex (t_id saved) entries with
   | Some existing => setAt existing entry entries
   | None => entries ++ [entry]
   end).

(** [ctx?.templateId === id]. *)
Definition contextUses (id : string) (ctx : option Context) : bool :=
  match ctx with
  | Some c =>
      match templateId c with
      | Some t => String.eqb t id
      | None => false
      end
  | None => false
  end.

(** The tests of [deleteTemplate] on one game configuration. *)
Definition references (id : string) (gc : GameConfig) : bool :=
  match systemTemplateId gc with
  | Some t => String.eqb t id
  | None => false
  end
  || contextUses id (gameContext gc)
  || existsb (fun entry => contextUses id (snd entry))
             (match progressionContexts gc with
              | Some levels => levels
              | None => []
              end).

(** [gc.gameName || gc.gameId] inside the error message. *)
Definition gameLabel (gc : GameConfig) : string :=
  match gc_gameName gc with
  | Some n => if falsy n then numberToString (gc_gameId gc) else n
  | None => numberToString (gc_gameId gc)
  end.

Inductive DeleteResult :=
| DeleteError (error : string)
| DeleteOk (entries : list IndexEntry).

(** [deleteTemplate(id)]: [gameConfigs] is what [listGameConfigs()]
    returns, [entries] the templates of the index.  On success the file
    is unlinked, the index is written back and the cache invalidated. *)
Definition deleteTemplate (gameConfigs : list GameConfig)
    (entries : list IndexEntry) (id : string) : DeleteResult :=
  match find (references id) gameConfigs with
  | Some gc => DeleteError ("Template referenced by game " +++ gameLabel gc)
  | None =>
      DeleteOk (filter (fun t => negb (String.eqb (e_id t) id)) entries)
  end.

(** The configuration after [progressionContexts[level] = ctx]. *)
Definition withLevel (level : nat) (ctx : option Context) (config : GameConfig)
  : GameConfig :=
  {| gc_gameId := gc_gameId config;
     gc_gameName := gc_gameName config;
     systemTemplateId := systemTemplateId config;
     gameContext := gameContext config;
     progressionContexts :=
       Some ((numberToString (Z.of_nat level), ctx)
             :: match progressionContexts config with
                | Some levels => levels
                | None => []
                end);
     llmSettings := llmSettings config |}.

(** [t => t.id !== id]. *)
Definition otherThan (id : string) (e : IndexEntry) : bool :=
  negb (String.eqb (e_id e) id).

Section Resolution.

(** [getCachedGameConfig] and [getCachedTemplate] as they answer during
    one resolution. *)
Variable getCachedGameConfig : option Z -> option GameConfig.
Variable getCachedTemplate' : string -> option Template.

Definition DEFAULT_SYSTEM : string :=
  "You are playing a 2D game. Respond with ONE action name.".

Definition defaultPromptConfig : PromptConfig :=
  {| systemContent :=
       match getCachedTemplate' "default-system" with
       | Some t => t_content t
       | None => Some DEFAULT_SYSTEM
       end;
     gameContent := None;
     levelContent := None;
     gameName := None;
     maxTokens := Some 100%Z |}.

(** [tpl ? tpl.content : null] for a template id. *)
Definition contentOf (id : string) : option string :=
  match getCachedTemplate' id with
  | Some t => t_content t
  | None => None
  end.

Definition truthy (x : option string) : bool :=
  match x with
  | Some v => negb (falsy v)
  | None => false
  end.

(** The text of a context: the override when there is one, the template
    of [templateId] otherwise. *)
Definition contextContent (ctx : option Context) : option string :=
  match ctx with
  | None => None
  | Some c =>
      if truthy (customOverride c) then customOverride c
      else if truthy (templateId c)
           then match templateId c with
                | Some t => contentOf t
                | None => None
                end
           else None
  end.

Fixpoint property {A : Type} (key : string) (obj : list (string * A))
  : option A :=
  match obj with
  | [] => None
  | (k, v) :: rest => if String.eqb key k then Some v else property key rest
  end.

Definition resolveGamePromptConfig (gameId : option Z) (levelId : nat)
  : PromptConfig :=
  match getCachedGameConfig gameId with
  | None => defaultPromptConfig
  | Some config =>
      let fromTemplate :=
        if truthy (systemTemplateId config)
        then match systemTemplateId config with
             | Some t => contentOf t
             | None => None
             end
        else None in
      let system :=
        if truthy fromTemplate then fromTemplate
        else systemContent defaultPromptConfig in
      let levels :=
        match progressionContexts config with
        | Some l => l
        | None => []
        end in
      let level :=
        match property (numberToString (Z.of_nat levelId)) levels with
        | Some ctx => contextContent ctx
        | None => None
        end in
      {| systemContent := system;
         gameContent := contextContent (gameContext config);
         levelContent := level;
         gameName := if truthy (gc_gameName config)
                     then gc_gameName config else None;
         maxTokens := match llmSettings config with
                      | Some settings => settings
                      | None => Some 100%Z
                      end |}
  end.

End Resolution.

End PromptStore.

(* ===================================================================== *)
(** ** routes/prompts.js and routes/games.js *)
(* ===================================================================== *)

Module Routes.
Import JS PromptStore.

Definition lowerChar (c : ascii) : ascii :=
  if between 65 90 c then ascii_of_nat (code c + 32) else c.

(** [s.toLowerCase()]. *)
Fixpoint toLowerCase (s : string) : string :=
  match s with
  | EmptyString => EmptyString
  | String c s' => String (lowerChar c) (toLowerCase s')
  end.

(** The class [[a-z0-9]]. *)
Definition isSlugChar (c : ascii) : bool :=
  between 97 122 c || between 48 57 c.

(** [s.replace(/[^a-z0-9]+/g, '-')]: [inRun] tells that the run of other
    characters before [s] has been replaced already. *)
Fixpoint dashRuns (inRun : bool) (s : string) : string :=
  match s with
  | EmptyString => EmptyString
  | String c s' =>
      if isSlugChar c then String c (dashRuns false s')
      else if inRun then dashRuns true s'
      else String "-" (dashRuns true s')
  end.

(** A dash at the end removed. *)
Fixpoint dropLastDash (s : string) : string :=
  match s with
  | EmptyString => EmptyString
  | String c EmptyString =>
      if Ascii.eqb c "-" then EmptyString else s
  | String c s' => String c (dropLastDash s')
  end.

(** [s.replace(/^-|-$/g, '')]: a dash at the start, then a dash at the
    end of what follows it. *)
Definition stripDashes (s : string) : string :=
  match s with
  | String c s' => if Ascii.eqb c "-" then dropLastDash s' else dropLastDash s
  | EmptyString => EmptyString
  end.

(** The id that [POST /templates] derives from a name. *)
Definition templateId (name : string) : string :=
  stripDashes (dashRuns false (toLowerCase name)).

(** The body of [POST /templates]. *)
Record CreateBody := {
  b_name : option string;
  b_layer : option string;
  b_category : option string;
  b_content : option string
}.

Inductive CreateResponse :=
| BadRequest (error : string)
| Conflict (error : string)
| Created (template : Template) (entries : list IndexEntry).

Definition present (x : option string) : bool :=
  match x with
  | Some v => negb (falsy v)
  | None => false
  end.

(** The handler of [POST /templates]: [getTemplate] reads the disk,
    [now] and [entries] are what [saveTemplate] reads. *)
Definition createTemplate (getTemplate : string -> option Template)
    (now : string) (entries : list IndexEntry) (body : CreateBody)
  : CreateResponse :=
  match b_name body, b_layer body, b_content body with
  | Some name, Some layer, Some content =>
      if falsy name || falsy layer || falsy content
      then BadRequest "name, layer, and content are required"
      else
        let id := templateId name in
        if falsy id then BadRequest "Invalid name"
        else
          match getTemplate id with
          | Some _ => Conflict "Template with this name already exists"
          | None =>
              let '(saved, entries') :=
                saveTemplate now entries
                  {| t_id := id; t_name := name; t_layer := layer;
                     t_category :=
                       (if present (b_category body)
                        then match b_category body with
                             | Some c => c
                             | None => "general"
                             end
                        else "general");
                     t_content := Some content;
                     t_createdAt := None; t_updatedAt := None |} in
              Created saved entries'
          end
  | _, _, _ => BadRequest "name, layer, and content are required"
  end.

(** [s.replace(pattern, replacement)] for a string pattern: the first
    occurrence only. *)
Fixpoint replaceFirst (pattern replacement s : string) : string :=
  if startsWith s pattern
  then replacement +++
       match dropPrefix pattern s with
       | Some rest => rest
       | None => EmptyString
       end
  else match s with
       | EmptyString => EmptyString
       | String c s' => String c (replaceFirst pattern replacement s')
       end.

(** The level file of a game file: [.txt] becomes [_lvl<i>.txt]. *)
Definition levelPath (filepath : string) (i : nat) : string :=
  replaceFirst ".txt" ("_lvl" +++ numberToString (Z.of_nat i) +++ ".txt")
               filepath.

(** The levels that [GET /api/games] reports for a game file;
    [levelExists] is [fs.existsSync] under the project root. *)
Definition gameLevels (levelExists : string -> bool) (filepath : string)
  : list nat :=
  match filter (fun i => levelExists (levelPath filepath i)) [0; 1; 2; 3; 4]%nat with
  | [] => [0; 1; 2; 3; 4]%nat
  | levels => levels
  end.

End Routes.

(* ===================================================================== *)
(** ** server.js: screenshot streaming *)
(* ===================================================================== *)

Module Server.

(** [sendScreenshotAsync] between its awaits on [stat] and on
    [readFile]: whether the frame is sent, and the new value of
    [lastScreenshotMtime] ([None] is [null]). *)
Definition screenshotStep (lastScreenshotMtime : option Z) (mtime : Z)
  : bool * option Z :=
  match lastScreenshotMtime with
  | Some l =>
      if negb (l =? 0)%Z && (mtime =? l)%Z
      then (false, lastScreenshotMtime)
      else (true, Some mtime)
  | None => (true, Some mtime)
  end.

(** The modification times sent for a series of file notifications. *)
Fixpoint sentFrames (lastScreenshotMtime : option Z) (mtimes : list Z)
  : list Z :=
  match mtimes with
  | [] => []
  | m :: rest =>
      let '(send, l) := screenshotStep lastScreenshotMtime m in
      if send then m :: sentFrames l rest else sentFrames l rest
  end.

(** No two neighbours of the list are equal. *)
Fixpoint noRepeat (l : list Z) : Prop :=
  match l with
  | a :: ((b :: _) as rest) => a <> b /\ noRepeat rest
  | _ => True
  end.

End Server.

(* ===================================================================== *)
(** ** More sample data *)
(* ===================================================================== *)

Module Samples.
Import JS StateConverter LLMClient PromptStore.

Fixpoint spaces (n : nat) : string :=
  match n with
  | O => EmptyString
  | S n' => String " " (spaces n')
  end.

(** A payload whose first 2000 characters hold the ACT marker. *)
Definition longHead : string := Scenario.phasePayload "ACT" +++ spaces 2000.

Definition aliensTemplate : Template :=
  {| t_id := "aliens-basics"; t_name := "Aliens basics";
     t_layer := "game"; t_category := "general";
     t_content := Some "Shoot the aliens.";
     t_createdAt := None; t_updatedAt := None |}.

Definition entryOf (t : Template) : IndexEntry :=
  {| e_id := t_id t; e_name := t_name t; e_layer := t_layer t;
     e_category := t_category t |}.

Definition aliensConfig : GameConfig :=
  {| gc_gameId := 0; gc_gameName := Some "aliens";
     systemTemplateId := None;
     gameContext :=
       Some {| PromptStore.templateId := Some "aliens-basics";
               customOverride := Some "Stay in the middle." |};
     progressionContexts := None;
     llmSettings := None |}.

Definition disk (id : string) : option Template :=
  if String.eqb id "aliens-basics" then Some aliensTemplate else None.

Definition configs (gameId : option Z) : option GameConfig :=
  match gameId with
  | Some 0%Z => Some aliensConfig
  | _ => None
  end.

(** The bytes of an ASCII text, and [data.toString()] on a chunk of ASCII
    bytes: each byte is the character of its code.  The chunks of the
    samples are ASCII. *)
Definition bytes (text : string) : Buffer := list_byte_of_string text.

Definition asciiText (data : Buffer) : string := string_of_list_byte data.

(** A store in which game 0 is configured under the name [aliens] and
    no other game is configured. *)
Definition namedResolve (game : option Z) (_ : nat) : PromptConfig :=
  match game with
  | Some 0%Z => Scenario.sampleConfig "Shoot the aliens."
  | _ => Scenario.defaultPromptConfig
  end.

(** A configuration that uses the template [aliens-basics] for its second
    level only. *)
Definition levelOnlyConfig : GameConfig :=
  {| gc_gameId := 7; gc_gameName := None;
     systemTemplateId := Some "default-system";
     gameContext :=
       Some {| PromptStore.templateId := None;
               customOverride := Some "Stay in the middle." |};
     progressionContexts :=
       Some [ ("0", None);
              ("1", Some {| PromptStore.templateId := Some "aliens-basics";
                            customOverride := None |}) ];
     llmSettings := None |}.

End Samples.

(* ===================================================================== *)
(** ** The uses of a template *)
(* ===================================================================== *)

Module TemplateUse.
Import PromptStore.

(** The three places in which a game configuration can name a template. *)
Definition asSystemTemplate (id : string) (gc : GameConfig) : Prop :=
  systemTemplateId gc = Some id.

Definition inGameContext (id : string) (gc : GameConfig) : Prop :=
  exists ctx, gameContext gc = Some ctx /\ templateId ctx = Some id.

Definition inLevelContext (id : string) (gc : GameConfig) : Prop :=
  exists levels level ctx,
    progressionContexts gc = Some levels /\
    In (level, Some ctx) levels /\
    templateId ctx = Some id.

Definition inUse (id : string) (gc : GameConfig) : Prop :=
  asSystemTemplate id gc \/ inGameContext id gc \/ inLevelContext id gc.

End TemplateUse.

(* ===================================================================== *)
(** ** The shape of a template id *)
(* ===================================================================== *)

Module IdShape.
Import JS Routes.

Definition isDash (c : ascii) : bool := Ascii.eqb c "-".

(** Only lower-case letters, digits and dashes. *)
Fixpoint slugText (s : string) : bool :=
  match s with
  | EmptyString => true
  | String c s' => (isSlugChar c || isDash c) && slugText s'
  end.

Definition startsDash (s : string) : bool :=
  match s with
  | String c _ => isDash c
  | EmptyString => false
  end.

Fixpoint endsDash (s : string) : bool :=
  match s with
  | EmptyString => false
  | String c EmptyString => isDash c
  | String _ s' => endsDash s'
  end.

(** No two dashes side by side. *)
Fixpoint noDoubleDash (s : string) : bool :=
  match s with
  | EmptyString => true
  | String c s' => negb (isDash c && startsDash s') && noDoubleDash s'
  end.

Definition wellFormedId (s : string) : bool :=
  slugText s && noDoubleDash s && negb (startsDash s) && negb (endsDash s).

(** Strictly increasing. *)
Fixpoint ascending (l : list nat) : Prop :=
  match l with
  | a :: ((b :: _) as rest) => (a < b)%nat /\ ascending rest
  | _ => True
  end.

End IdShape.

(* ===================================================================== *)
(** * Properties *)
(* ===================================================================== *)

Import JS ResponseParser StateConverter LLMClient Admission.

(** ** Strings *)

Section StringFacts.

Lemma append_assoc (a b c : string) : (a +++ b) +++ c = a +++ b +++ c.
Proof. induction a as [|x a IH]; simpl; [reflexivity | now rewrite IH]. Qed.

Lemma append_empty_r (a : string) : a +++ EmptyString = a.
Proof. induction a as [|x a IH]; simpl; [reflexivity | now rewrite IH]. Qed.

Lemma startsWith_append (t r : string) : startsWith (t +++ r) t = true.
Proof.
  induction t as [|x t IH]; simpl.
  - now destruct r.
  - now rewrite Ascii.eqb_refl, IH.
Qed.

Lemma includes_here (s t : string) :
  startsWith s t = true -> includes s t = true.
Proof. intros H. destruct s; simpl in *; rewrite H; reflexivity. Qed.

Lemma includes_append_l (l s t : string) :
  includes s t = true -> includes (l +++ s) t = true.
Proof.
  intros H. induction l as [|x l IH]; simpl; [exact H |].
  rewrite IH. apply orb_true_r.
Qed.

(** A string includes each of its infixes. *)
Lemma includes_infix (l t r : string) : includes (l +++ t +++ r) t = true.
Proof.
  apply includes_append_l, includes_here, startsWith_append.
Qed.

Lemma dropPrefix_Some (p s r : string) :
  dropPrefix p s = Some r -> s = p +++ r.
Proof.
  revert s. induction p as [|a p IH]; intros s H; simpl in *.
  - now inversion H.
  - destruct s as [|b s]; [discriminate |].
    destruct (Ascii.eqb a b) eqn:E; [| discriminate].
    apply Ascii.eqb_eq in E. subst b. now rewrite (IH _ H).
Qed.

Lemma dropPrefix_append (p r : string) : dropPrefix p (p +++ r) = Some r.
Proof.
  induction p as [|a p IH]; simpl; [reflexivity |].
  now rewrite Ascii.eqb_refl.
Qed.

Lemma skipSpaces_suffix (s : string) : exists l, s = l +++ skipSpaces s.
Proof.
  induction s as [|c s [l IH]]; simpl.
  - now exists EmptyString.
  - destruct (isSpace c).
    + exists (String c l). simpl. now rewrite <- IH.
    + now exists EmptyString.
Qed.

Lemma takeWord_dropWord (s : string) : s = takeWord s +++ dropWord s.
Proof.
  induction s as [|c s IH]; simpl; [reflexivity |].
  destruct (isWord c); simpl; [now rewrite <- IH | reflexivity].
Qed.

Lemma find_agree {A : Type} (f g : A -> bool) (l : list A) :
  (forall x, In x l -> f x = g x) -> find f l = find g l.
Proof.
  induction l as [|a l IH]; intros H; simpl; [reflexivity |].
  rewrite <- (H a (or_introl eq_refl)).
  destruct (f a); [reflexivity |].
  apply IH. intros x Hx. apply H. now right.
Qed.

Lemma find_all_false {A : Type} (f : A -> bool) (l : list A) :
  (forall x, In x l -> f x = false) -> find f l = None.
Proof.
  induction l as [|a l IH]; intros H; simpl; [reflexivity |].
  rewrite (H a (or_introl eq_refl)). apply IH.
  intros x Hx. apply H. now right.
Qed.

Lemma member_In (x : string) (l : list string) :
  member x l = true <-> In x l.
Proof.
  unfold member. rewrite existsb_exists. split.
  - intros [y [Hy E]]. apply String.eqb_eq in E. now subst.
  - intros H. exists x. split; [exact H | apply String.eqb_refl].
Qed.

End StringFacts.

(** ** The action parser *)

Section ParserFacts.

(** A match of the structured pattern is a piece of the text. *)
Lemma matchHere_includes (s m1 : string) :
  matchHere s = Some m1 -> includes s m1 = true.
Proof.
  unfold matchHere. intros H.
  destruct (dropPrefix "ACTION:" s) as [r|] eqn:E1; [| discriminate].
  destruct (dropPrefix "ACTION_" (skipSpaces r)) as [w|] eqn:E2;
    [| discriminate].
  apply dropPrefix_Some in E1, E2.
  destruct (skipSpaces_suffix r) as [l Hl].
  assert (Hm : m1 = "ACTION_" +++ takeWord w)
    by (destruct (takeWord w); [discriminate | now inversion H]).
  assert (Hs : s = ("ACTION:" +++ l) +++ m1 +++ dropWord w).
  { rewrite E1, Hl, E2, Hm, (takeWord_dropWord w) at 1.
    now rewrite !append_assoc. }
  rewrite Hs. apply includes_infix.
Qed.

Lemma regexMatch_includes (s m1 : string) :
  regexMatch s = Some m1 -> includes s m1 = true.
Proof.
  induction s as [|c s IH]; intros H; cbn [regexMatch] in H.
  - now destruct (matchHere EmptyString) eqn:E.
  - destruct (matchHere (String c s)) eqn:E.
    + inversion H; subst. now apply matchHere_includes.
    + change (includes (String c EmptyString +++ s) m1 = true).
      apply includes_append_l. now apply IH.
Qed.

(** When the pattern captures a legal token, the substring search has
    found a token. *)
Lemma first_tier_finds (text m1 : string) (availableActions : list string) :
  regexMatch text = Some m1 ->
  member m1 availableActions = true ->
  find (fun action => includes text action) availableActions <> None.
Proof.
  intros Hm Hin Hnone.
  apply member_In in Hin.
  pose proof (find_none _ _ Hnone _ Hin) as Hf. simpl in Hf.
  rewrite (regexMatch_includes _ _ Hm) in Hf. discriminate.
Qed.

Lemma parseAction_is_first_tier (llmResponse : string)
                                (availableActions : list string) :
  parseAction llmResponse availableActions
  = parseAction_first_tier llmResponse availableActions.
Proof.
  unfold parseAction, parseAction_first_tier.
  destruct (falsy llmResponse); [reflexivity |].
  destruct (find _ availableActions) eqn:Ef; [reflexivity |].
  destruct (regexMatch (toUpperCase llmResponse)) as [m1|] eqn:Em;
    [| reflexivity].
  destruct (member m1 availableActions) eqn:Ein; [| reflexivity].
  exfalso. now apply (first_tier_finds _ _ _ Em Ein).
Qed.

(** The tokens of the vocabulary are upper case and not empty. *)
Lemma valid_action_upper (a : string) :
  In a VALID_ACTIONS -> toUpperCase a = a /\ a <> EmptyString.
Proof.
  unfold VALID_ACTIONS. simpl.
  intros H; repeat (destruct H as [H|H]; [subst a; now split |]).
  contradiction.
Qed.

Lemma parseAction_in_vocabulary (llmResponse : string) :
  In (parseAction llmResponse VALID_ACTIONS) VALID_ACTIONS.
Proof.
  rewrite parseAction_is_first_tier. unfold parseAction_first_tier.
  destruct (falsy llmResponse); [now left |].
  destruct (find _ VALID_ACTIONS) eqn:Ef; [| now left].
  now apply find_some in Ef.
Qed.

End ParserFacts.

(** C10.  The second tier of the parser never decides: whenever the
    pattern [ACTION:\s*(ACTION_\w+)] captures a token of the legal list,
    that token is a piece of the upper-cased text, so the ordered substring
    search has already returned a token; [parseAction] is therefore equal,
    on every response and every legal list, to the parser without the
    second tier. *)
Theorem second_tier_never_decides (llmResponse : string)
                                  (availableActions : list string) :
  (forall m1,
      regexMatch (toUpperCase llmResponse) = Some m1 ->
      member m1 availableActions = true ->
      includes (toUpperCase llmResponse) m1 = true /\
      exists action,
        find (fun action => includes (toUpperCase llmResponse) action)
             availableActions = Some action)
  /\ parseAction llmResponse availableActions
     = parseAction_first_tier llmResponse availableActions.
Proof.
  split; [| apply parseAction_is_first_tier].
  intros m1 Hm Hin. split; [now apply regexMatch_includes |].
  pose proof (first_tier_finds _ _ _ Hm Hin) as Hf.
  destruct (find _ availableActions) as [a|]; [now exists a | contradiction].
Qed.

Lemma second_tier_never_decides_witness :
  regexMatch (toUpperCase "Action: action_left") = Some "ACTION_LEFT" /\
  includes (toUpperCase "Action: action_left") "ACTION_LEFT" = true /\
  parseAction "Action: action_left" VALID_ACTIONS
  = parseAction_first_tier "Action: action_left" VALID_ACTIONS.
Proof.
  split; [reflexivity |].
  destruct (second_tier_never_decides "Action: action_left" VALID_ACTIONS)
    as [Hcapture Hsame].
  split; [| exact Hsame].
  apply (Hcapture "ACTION_LEFT"); reflexivity.
Defined.

(** Without the guard on the empty response the two parsers still agree
    as long as the empty string is not offered as a legal token. *)
Lemma parseAction_unguarded (llmResponse : string)
                            (availableActions : list string) :
  ~ In EmptyString availableActions ->
  parseAction llmResponse availableActions
  = match find (fun action => includes (toUpperCase llmResponse) action)
               availableActions with
    | Some action => action
    | None => ACTION_NIL
    end.
Proof.
  intros Hne. rewrite parseAction_is_first_tier. unfold parseAction_first_tier.
  destruct llmResponse as [|c r]; [| reflexivity].
  cbn [falsy toUpperCase]. rewrite find_all_false; [reflexivity |].
  intros x Hx. destruct x; [contradiction | reflexivity].
Qed.

(** C7.  The parser contract on the action vocabulary: for every response
    and every list of legal tokens taken from the vocabulary, [parseAction]
    returns the first token of the list that occurs in the text up to case;
    failing that, the token captured by the structured pattern when it is
    legal; failing that, ACTION_NIL.  The three examples of the
    specification hold. *)
Theorem parseAction_contract (text : string) (legal : list string)
                             (Hlegal : incl legal VALID_ACTIONS) :
  parseAction text legal = parse_contract text legal /\
  parseAction "I will go ACTION_UP now" ["ACTION_UP"; "ACTION_DOWN"]
  = "ACTION_UP" /\
  parseAction "Action: ACTION_LEFT" ["ACTION_LEFT"] = "ACTION_LEFT" /\
  parseAction "I don't know" legal = ACTION_NIL.
Proof.
  assert (Hup : forall a, In a legal -> toUpperCase a = a /\ a <> EmptyString)
    by (intros a Ha; apply valid_action_upper, Hlegal, Ha).
  repeat split; try reflexivity.
  - unfold parseAction, parse_contract.
    destruct text as [|c t].
    + cbn [falsy]. rewrite find_all_false; [reflexivity |].
      intros a Ha. destruct (Hup a Ha) as [Hu Hn]. unfold occurs_ci.
      rewrite Hu. destruct a; [contradiction | reflexivity].
    + cbn [falsy]. cbv zeta.
      rewrite (find_agree
                 (fun action => includes (toUpperCase (String c t)) action)
                 (fun token => occurs_ci token (String c t))); [reflexivity |].
      intros a Ha. unfold occurs_ci. now rewrite (proj1 (Hup a Ha)).
  - rewrite parseAction_is_first_tier. unfold parseAction_first_tier.
    cbn [falsy]. rewrite find_all_false; [reflexivity |].
    intros a Ha. apply Hlegal in Ha. unfold VALID_ACTIONS in Ha. simpl in Ha.
    repeat (destruct Ha as [Ha|Ha]; [subst a; vm_compute; reflexivity |]).
    contradiction.
Qed.

Lemma parseAction_contract_witness :
  parseAction "go left: action_left" ["ACTION_UP"; "ACTION_LEFT"]
  = parse_contract "go left: action_left" ["ACTION_UP"; "ACTION_LEFT"] /\
  parseAction "I don't know" ["ACTION_UP"; "ACTION_LEFT"] = ACTION_NIL.
Proof.
  assert (H : incl ["ACTION_UP"; "ACTION_LEFT"] VALID_ACTIONS).
  { intros a [Ha|[Ha|[]]]; subst a; simpl; tauto. }
  destruct (parseAction_contract "go left: action_left"
              ["ACTION_UP"; "ACTION_LEFT"] H) as [H1 [_ [_ H4]]].
  split; assumption.
Defined.

(** ** The wire framing *)

Section Framing.

Lemma split_nonempty (sep : ascii) (s : string) : split sep s <> [].
Proof.
  destruct s as [|c s]; simpl; [discriminate |].
  destruct (Ascii.eqb c sep); [discriminate |].
  destruct (split sep s); discriminate.
Qed.

Lemma join_cons_char (sep : string) (c : ascii) (p : string)
                     (ps : list string) :
  join sep (String c p :: ps) = String c (join sep (p :: ps)).
Proof. destruct ps; reflexivity. Qed.

Lemma join_cons_more (sep a b : string) (l : list string) :
  join sep (a :: b :: l) = a +++ sep +++ join sep (b :: l).
Proof. reflexivity. Qed.

(** Joining what was split gives the text back. *)
Lemma join_split (sep : ascii) (s : string) :
  join (String sep EmptyString) (split sep s) = s.
Proof.
  induction s as [|c s IH]; [reflexivity |].
  cbn [split]. destruct (Ascii.eqb c sep) eqn:E.
  - apply Ascii.eqb_eq in E. subst c.
    pose proof (split_nonempty sep s) as Hne.
    destruct (split sep s) as [|p ps]; [contradiction |].
    rewrite join_cons_more, IH. reflexivity.
  - pose proof (split_nonempty sep s) as Hne.
    destruct (split sep s) as [|p ps]; [contradiction |].
    rewrite join_cons_char. now rewrite IH.
Qed.

(** The first separator cuts off the first part. *)
Lemma split_first (sep : ascii) (id rest : string) :
  hasChar sep id = false ->
  split sep (id +++ String sep rest) = id :: split sep rest.
Proof.
  induction id as [|c id IH]; intros H.
  - simpl. now rewrite Ascii.eqb_refl.
  - cbn [hasChar] in H. apply orb_false_iff in H. destruct H as [Hc Hid].
    cbn [String.append split]. rewrite Hc, (IH Hid). reflexivity.
Qed.

End Framing.

(** C6.  Round trip of the wire framing: for every frame [id#payload]
    whose id holds no [#], splitting at [#] and joining all segments after
    the first gives back exactly the id and exactly the payload, whatever
    [#] characters the payload holds. *)
Theorem frame_roundtrip (id payload : string)
                        (Hid : hasChar "#" id = false) :
  split "#" (id +++ "#" +++ payload) = id :: split "#" payload /\
  messageId (id +++ "#" +++ payload) = id /\
  messagePayload (id +++ "#" +++ payload) = payload.
Proof.
  assert (Hs : split "#" (id +++ "#" +++ payload) = id :: split "#" payload)
    by (apply (split_first "#" id payload Hid)).
  unfold messageId, messagePayload. rewrite Hs. cbn [hd tl].
  repeat split. apply (join_split "#").
Qed.

Lemma frame_roundtrip_witness :
  messageId ("12" +++ "#" +++ "{a#b}#c#") = "12" /\
  messagePayload ("12" +++ "#" +++ "{a#b}#c#") = "{a#b}#c#".
Proof.
  apply (frame_roundtrip "12" "{a#b}#c#"). reflexivity.
Defined.

(** ** The relay *)

Section ClientFacts.

Variable JSON_parse : string -> option StateObservation.
Variable resolveGamePromptConfig : option Z -> nat -> PromptConfig.

Local Abbreviation processMessage :=
  (LLMClient.processMessage JSON_parse resolveGamePromptConfig).
Local Abbreviation runImmediate := (LLMClient.runImmediate JSON_parse).
Local Abbreviation startAsyncLLMCall := (LLMClient.startAsyncLLMCall JSON_parse).
Local Abbreviation step := (LLMClient.step JSON_parse resolveGamePromptConfig).
Local Abbreviation run := (LLMClient.run JSON_parse resolveGamePromptConfig).

Lemma detectPhase_ACT_payload (payload : string) :
  detectPhase payload = ACT ->
  falsy payload = false /\
  String.eqb payload "START" = false /\
  String.eqb payload "FINISH" = false.
Proof.
  intros H. repeat split.
  - destruct payload; [vm_compute in H; discriminate | reflexivity].
  - destruct (String.eqb payload "START") eqn:E; [| reflexivity].
    apply String.eqb_eq in E. subst. vm_compute in H. discriminate.
  - destruct (String.eqb payload "FINISH") eqn:E; [| reflexivity].
    apply String.eqb_eq in E. subst. vm_compute in H. discriminate.
Qed.

(** The ACT branch: one call of [sendMessageWithId], one callback
    queued, no field written. *)
Lemma processMessage_ACT (w : World) (message : string) :
  detectPhase (messagePayload message) = ACT ->
  processMessage w message
  = ({| session := session w;
        immediates :=
          immediates w ++
          [{| d_payload := messagePayload message;
              d_action := actionToSend (session w) |}];
        inflight := inflight w |},
     sendMessageWithId (session w) (messageId message)
                       (actionToSend (session w) +++ "#IMAGE")).
Proof.
  intros H. unfold LLMClient.processMessage.
  destruct (detectPhase_ACT_payload _ H) as [H1 [H2 H3]].
  now rewrite H1, H2, H3, H.
Qed.

Lemma frame_parts (id payload : string) :
  hasChar "#" id = false ->
  messageId (id +++ "#" +++ payload) = id /\
  messagePayload (id +++ "#" +++ payload) = payload.
Proof.
  intros Hid. unfold messageId, messagePayload.
  pose proof (split_first "#" id payload Hid) as Hs.
  change (String "#" payload) with ("#" +++ payload) in Hs.
  rewrite Hs. cbn [hd tl].
  split; [reflexivity | apply (join_split "#")].
Qed.

Lemma run_cons (w : World) (e : Event) (rest : list Event) :
  run w (e :: rest)
  = (fst (run (fst (step w e)) rest),
     snd (step w e) ++ snd (run (fst (step w e)) rest)).
Proof.
  cbn [LLMClient.run]. destruct (step w e) as [w1 out1]. cbn [fst snd].
  destruct (run w1 rest) as [w2 out2]. reflexivity.
Qed.

(** Starting a call and running a queued callback leave the cached
    action and the socket alone. *)
Lemma startAsyncLLMCall_cache (w : World) (payload : string) (clock : Z) :
  pendingLLMAction (session (fst (startAsyncLLMCall w payload clock)))
  = pendingLLMAction (session w) /\
  socketReady (session (fst (startAsyncLLMCall w payload clock)))
  = socketReady (session w).
Proof.
  unfold LLMClient.startAsyncLLMCall.
  destruct (JSON_parse payload); split; reflexivity.
Qed.

Lemma runImmediate_cache (w : World) (now clock : Z) :
  pendingLLMAction (session (fst (runImmediate w now clock)))
  = pendingLLMAction (session w) /\
  socketReady (session (fst (runImmediate w now clock)))
  = socketReady (session w).
Proof.
  unfold LLMClient.runImmediate.
  destruct (immediates w) as [|d rest]; [split; reflexivity |].
  destruct (negb (llmCallInProgress (session w)) &&
            (400 <=? now - lastLLMCallTime (session w))%Z);
    [| split; reflexivity].
  match goal with
  | |- context [startAsyncLLMCall ?w1 ?p ?c] =>
      pose proof (startAsyncLLMCall_cache w1 p c) as H;
      destruct (startAsyncLLMCall w1 p c) as [w2 out]
  end.
  exact H.
Qed.

(** A backend exchange that ends in an error leaves them alone too. *)
Lemma settle_error_cache (w : World) (k : nat) (o : Backend) :
  backendError o = true ->
  pendingLLMAction (session (fst (settle w k o)))
  = pendingLLMAction (session w) /\
  socketReady (session (fst (settle w k o))) = socketReady (session w).
Proof.
  intros H. unfold settle.
  destruct (nth_error (inflight w) k); [| split; reflexivity].
  destruct o as [| | |[choices|]]; try discriminate; split; reflexivity.
Qed.

(** A completed exchange stores the parsed action, whatever the state. *)
Lemma settle_success_cache (w : World) (k : nat) (inv : Invocation)
                           (choices : list (option string)) :
  nth_error (inflight w) k = Some inv ->
  pendingLLMAction (session (fst (settle w k (Body (Some choices)))))
  = Some (parseAction (responseContent choices) VALID_ACTIONS).
Proof. intros H. unfold settle. rewrite H. reflexivity. Qed.

(** The reply to a tick is a function of the cache and of the socket. *)
Lemma ACT_reply_depends_on_cache (w w' : World) (message : string) :
  detectPhase (messagePayload message) = ACT ->
  pendingLLMAction (session w') = pendingLLMAction (session w) ->
  socketReady (session w') = socketReady (session w) ->
  snd (processMessage w' message) = snd (processMessage w message).
Proof.
  intros H Hc Hs. rewrite !processMessage_ACT by exact H. cbn [snd].
  unfold sendMessageWithId, actionToSend. now rewrite Hc, Hs.
Qed.

End ClientFacts.

Section RelayClaims.

Variable JSON_parse : string -> option StateObservation.
Variable resolveGamePromptConfig : option Z -> nat -> PromptConfig.

Local Abbreviation processMessage :=
  (LLMClient.processMessage JSON_parse resolveGamePromptConfig).
Local Abbreviation runImmediate := (LLMClient.runImmediate JSON_parse).
Local Abbreviation step := (LLMClient.step JSON_parse resolveGamePromptConfig).
Local Abbreviation run := (LLMClient.run JSON_parse resolveGamePromptConfig).

(** C1.  For every message classified as ACT, on an open socket, the
    only effect of handling it is the write of the reply frame: the
    incoming correlation id, the cached action (ACTION_NIL when there is
    none) and the marker [#IMAGE].  No field of the session changes, the
    deferred work is queued behind the callbacks already waiting, and in
    every continuation of the run the write comes before all later
    effects. *)
Theorem act_reply_precedes_deferred_work
    (w : World) (id payload : string) (rest : list Event)
    (Hid : hasChar "#" id = false)
    (Hact : detectPhase payload = ACT)
    (Hopen : socketReady (session w) = true) :
  let action := actionToSend (session w) in
  let reply := id +++ "#" +++ action +++ "#IMAGE" +++ nl in
  let w' := {| session := session w;
               immediates :=
                 immediates w ++
                 [{| d_payload := payload; d_action := action |}];
               inflight := inflight w |} in
  processMessage w (id +++ "#" +++ payload) = (w', [SocketWrite reply]) /\
  messageId reply = id /\
  (pendingLLMAction (session w) = None -> action = ACTION_NIL) /\
  (forall a, pendingLLMAction (session w) = Some a ->
             a <> EmptyString -> action = a) /\
  snd (run w (Message (id +++ "#" +++ payload) :: rest))
  = SocketWrite reply :: snd (run w' rest).
Proof.
  intros action reply w'.
  destruct (frame_parts id payload Hid) as [Hmid Hpay].
  assert (Hstep : processMessage w (id +++ "#" +++ payload)
                  = (w', [SocketWrite reply])).
  { rewrite processMessage_ACT by (rewrite Hpay; exact Hact).
    rewrite Hmid, Hpay. unfold sendMessageWithId. rewrite Hopen.
    subst reply w' action. now rewrite append_assoc. }
  repeat split.
  - exact Hstep.
  - apply (frame_parts id (action +++ "#IMAGE" +++ nl) Hid).
  - intros Hnone. subst action. unfold actionToSend. now rewrite Hnone.
  - intros a Ha Hne. subst action. unfold actionToSend. rewrite Ha.
    destruct a; [contradiction | reflexivity].
  - rewrite run_cons. cbn [LLMClient.step]. rewrite Hstep. reflexivity.
Qed.

(** C8, as the code has it.  A decision invocation that ends in an
    error thrown in [startAsyncLLMCall] (the request fails, the status is
    not a success, the body is not JSON or carries no choices) leaves the
    cached action as it was, and so does
    the start of an invocation; the reply to the next ACT message is the
    one that would have been sent without the failed invocation. *)
Theorem failed_invocation_keeps_cache
    (w : World) (k : nat) (o : Backend)
    (Herr : backendError o = true) :
  pendingLLMAction (session (fst (settle w k o)))
  = pendingLLMAction (session w) /\
  (forall now clock,
      pendingLLMAction (session (fst (runImmediate w now clock)))
      = pendingLLMAction (session w)) /\
  (forall message,
      detectPhase (messagePayload message) = ACT ->
      snd (processMessage (fst (settle w k o)) message)
      = snd (processMessage w message)).
Proof.
  destruct (settle_error_cache w k o Herr) as [Hc Hs].
  repeat split.
  - exact Hc.
  - intros now clock. apply (runImmediate_cache JSON_parse).
  - intros message Hact. now apply ACT_reply_depends_on_cache.
Qed.

(** C3, as the code has it.  A decision invocation that completes
    successfully commits its parsed action into the cached action in
    every state: nothing of the session (level counter, activity flag,
    the cache itself) is consulted before the commit.  Only an invocation
    that ends in an error leaves the cache untouched. *)
Theorem completion_commits_in_every_state
    (w : World) (k : nat) (inv : Invocation)
    (choices : list (option string))
    (Hk : nth_error (inflight w) k = Some inv) :
  pendingLLMAction (session (fst (settle w k (Body (Some choices)))))
  = Some (parseAction (responseContent choices) VALID_ACTIONS) /\
  levelCount (session (fst (settle w k (Body (Some choices)))))
  = levelCount (session w) /\
  gameActive (session (fst (settle w k (Body (Some choices)))))
  = gameActive (session w) /\
  (forall o, backendError o = true ->
             pendingLLMAction (session (fst (settle w k o)))
             = pendingLLMAction (session w)).
Proof.
  repeat split.
  - now apply settle_success_cache with (inv := inv).
  - unfold settle. rewrite Hk. reflexivity.
  - unfold settle. rewrite Hk. reflexivity.
  - intros o Ho. now apply settle_error_cache.
Qed.

Lemma detectPhase_END_payload (payload : string) :
  detectPhase payload = END ->
  falsy payload = false /\
  String.eqb payload "START" = false /\
  String.eqb payload "FINISH" = false.
Proof.
  intros H. repeat split.
  - destruct payload; [vm_compute in H; discriminate | reflexivity].
  - destruct (String.eqb payload "START") eqn:E; [| reflexivity].
    apply String.eqb_eq in E. subst. vm_compute in H. discriminate.
  - destruct (String.eqb payload "FINISH") eqn:E; [| reflexivity].
    apply String.eqb_eq in E. subst. vm_compute in H. discriminate.
Qed.

(** Every turn of the event loop other than the handling of an END
    message keeps a cached action cached. *)
Lemma step_keeps_cache (w : World) (e : Event) :
  (forall m, e = Message m -> detectPhase (messagePayload m) <> END) ->
  pendingLLMAction (session w) <> None ->
  pendingLLMAction (session (fst (step w e))) <> None.
Proof.
  intros Hend Hc. destruct e as [m | now clock | k o | |]; cbn [LLMClient.step].
  - specialize (Hend m eq_refl). unfold LLMClient.processMessage.
    destruct (falsy (messagePayload m)); [exact Hc |].
    destruct (String.eqb (messagePayload m) "START"); [exact Hc |].
    destruct (String.eqb (messagePayload m) "FINISH").
    + unfold _triggerSessionEnd. cbn.
      destruct (onSessionEnd (session w)); exact Hc.
    + destruct (detectPhase (messagePayload m)); try exact Hc.
      * destruct (JSON_parse (messagePayload m)); [| exact Hc].
        unfold handleInit. destruct (gameId (session w)); exact Hc.
      * contradiction.
  - now rewrite (proj1 (runImmediate_cache JSON_parse w now clock)).
  - unfold settle. destruct (nth_error (inflight w) k); [| exact Hc].
    destruct o as [| | |[choices|]]; try exact Hc. discriminate.
  - unfold socketClosed, _triggerSessionEnd. cbn.
    destruct (onSessionEnd (session w)); exact Hc.
  - exact Hc.
Qed.

(** C4, as the code has it.  A completed invocation caches a token of
    the vocabulary; a cached action stays cached through every turn of
    the event loop that is not the handling of an END message; handling
    an END message resets the cache to null and adds one to the level
    counter; and whenever the cache is null the reply uses ACTION_NIL. *)
Theorem cached_action_lifetime (w : World) :
  (forall k inv choices,
      nth_error (inflight w) k = Some inv ->
      exists a,
        pendingLLMAction (session (fst (settle w k (Body (Some choices)))))
        = Some a /\ In a VALID_ACTIONS) /\
  (forall e,
      (forall m, e = Message m -> detectPhase (messagePayload m) <> END) ->
      pendingLLMAction (session w) <> None ->
      pendingLLMAction (session (fst (step w e))) <> None) /\
  (forall id payload sso,
      hasChar "#" id = false ->
      detectPhase payload = END ->
      JSON_parse payload = Some sso ->
      pendingLLMAction
        (session (fst (processMessage w (id +++ "#" +++ payload)))) = None /\
      levelCount
        (session (fst (processMessage w (id +++ "#" +++ payload))))
      = S (levelCount (session w))) /\
  (pendingLLMAction (session w) = None ->
   actionToSend (session w) = ACTION_NIL).
Proof.
  split; [| split; [| split]].
  - intros k inv choices Hk. eexists. split.
    + now apply settle_success_cache with (inv := inv).
    + apply parseAction_in_vocabulary.
  - intros e. apply step_keeps_cache.
  - intros id payload sso Hid Hend Hsso.
    destruct (frame_parts id payload Hid) as [_ Hpay].
    destruct (detectPhase_END_payload _ Hend) as [H2 [H3 H4]].
    unfold LLMClient.processMessage. rewrite Hpay, H2, H3, H4, Hend, Hsso.
    split; reflexivity.
  - intros Hn. unfold actionToSend. now rewrite Hn.
Qed.

(** What a queued callback does when its payload is not JSON: no event
    for the browser, no request to the backend, and the call it may
    start ends at once. *)
Lemma runImmediate_malformed (w : World) (d : Deferred) (rest : list Deferred)
                             (now clock : Z) :
  immediates w = d :: rest ->
  JSON_parse (d_payload d) = None ->
  pendingLLMAction (session (fst (runImmediate w now clock)))
  = pendingLLMAction (session w) /\
  llmCallInProgress (session (fst (runImmediate w now clock)))
  = llmCallInProgress (session w) /\
  inflight (fst (runImmediate w now clock)) = inflight w /\
  (snd (runImmediate w now clock) = [] \/
   snd (runImmediate w now clock) = [LLMCallStarted clock]).
Proof.
  intros Hq Hp. unfold LLMClient.runImmediate. rewrite Hq, Hp.
  destruct (llmCallInProgress (session w)) eqn:Ef; cbn [negb andb].
  - cbn. rewrite Ef. repeat split. now left.
  - destruct (400 <=? now - lastLLMCallTime (session w))%Z.
    + unfold LLMClient.startAsyncLLMCall. rewrite Hp. cbn.
      repeat split. now right.
    + cbn. rewrite Ef. repeat split. now left.
Qed.

(** C5, as the code has it.  A message in which the ACT marker is found
    is answered at once even when its payload is not JSON: the reply
    carries the incoming correlation id and the cached action
    (ACTION_NIL when there is none), and the deferred work on that
    payload raises nothing.  A message in which no phase marker is found,
    and which is not a control token, is not answered. *)
Theorem act_reply_despite_malformed_payload
    (w : World) (id payload : string)
    (Hid : hasChar "#" id = false)
    (Hopen : socketReady (session w) = true) :
  (detectPhase payload = ACT ->
   JSON_parse payload = None ->
   let d := {| d_payload := payload;
               d_action := actionToSend (session w) |} in
   processMessage w (id +++ "#" +++ payload)
   = ({| session := session w;
         immediates := immediates w ++ [d];
         inflight := inflight w |},
      [SocketWrite (id +++ "#" +++ actionToSend (session w)
                       +++ "#IMAGE" +++ nl)]) /\
   forall w1 rest now clock,
     immediates w1 = d :: rest ->
     pendingLLMAction (session (fst (runImmediate w1 now clock)))
     = pendingLLMAction (session w1) /\
     llmCallInProgress (session (fst (runImmediate w1 now clock)))
     = llmCallInProgress (session w1) /\
     inflight (fst (runImmediate w1 now clock)) = inflight w1 /\
     (snd (runImmediate w1 now clock) = [] \/
      snd (runImmediate w1 now clock) = [LLMCallStarted clock])) /\
  (detectPhase payload = NoPhase ->
   payload <> "START" -> payload <> "FINISH" ->
   processMessage w (id +++ "#" +++ payload) = (w, [])).
Proof.
  destruct (frame_parts id payload Hid) as [Hmid Hpay].
  split.
  - intros Hact Hbad d. split.
    + rewrite processMessage_ACT by (rewrite Hpay; exact Hact).
      rewrite Hmid, Hpay. unfold sendMessageWithId. rewrite Hopen.
      now rewrite append_assoc.
    + intros w1 rest now clock Hq.
      now apply runImmediate_malformed with (d := d) (rest := rest).
  - intros Hno Hs Hf. unfold LLMClient.processMessage. rewrite Hpay.
    destruct (falsy payload); [reflexivity |].
    apply String.eqb_neq in Hs, Hf. now rewrite Hs, Hf, Hno.
Qed.

End RelayClaims.

(** ** Admission control *)

Section AdmissionControl.

Variable JSON_parse : string -> option StateObservation.
Variable resolveGamePromptConfig : option Z -> nat -> PromptConfig.

Local Abbreviation processMessage :=
  (LLMClient.processMessage JSON_parse resolveGamePromptConfig).
Local Abbreviation runImmediate := (LLMClient.runImmediate JSON_parse).
Local Abbreviation step := (LLMClient.step JSON_parse resolveGamePromptConfig).
Local Abbreviation run := (LLMClient.run JSON_parse resolveGamePromptConfig).










End AdmissionControl.

(** ** Witnesses and scenarios of the relay *)

Lemma act_reply_precedes_deferred_work_witness :
  Scenario.parse (Scenario.phasePayload "ACT") <> None /\
  snd (LLMClient.run Scenario.parse Scenario.resolve Scenario.start
         [Scenario.tick; Immediate 1000 1000])
  = SocketWrite ("1" +++ "#" +++ ACTION_NIL +++ "#IMAGE" +++ nl)
    :: snd (LLMClient.run Scenario.parse Scenario.resolve
              {| session := session Scenario.start;
                 immediates :=
                   [{| d_payload := Scenario.phasePayload "ACT";
                       d_action := ACTION_NIL |}];
                 inflight := [] |}
              [Immediate 1000 1000]).
Proof.
  split; [discriminate |].
  apply (act_reply_precedes_deferred_work
           Scenario.parse Scenario.resolve Scenario.start
           "1" (Scenario.phasePayload "ACT") [Immediate 1000 1000]);
    reflexivity.
Defined.

(** The trace of that run: the reply, then the work deferred behind it. *)
Example tick_trace :
  snd (LLMClient.run Scenario.parse Scenario.resolve Scenario.start
         [Scenario.tick; Immediate 1000 1000])
  = [ SocketWrite ("1#ACTION_NIL#IMAGE" +++ nl);
      IoEmit (GameState None None None None "ACTION_NIL");
      LLMCallStarted 1000;
      FetchPost
        [ ("system", "You are playing a 2D game. Respond with ONE action name.");
          ("user", tickState Scenario.emptyObservation) ]
        100 ].
Proof. vm_compute. reflexivity. Qed.

Lemma failed_invocation_keeps_cache_witness :
  inflight Scenario.calling <> [] /\
  pendingLLMAction
    (session (fst (settle Scenario.calling 0 (HttpError 500 "overloaded"))))
  = pendingLLMAction (session Scenario.calling).
Proof.
  split; [discriminate |].
  apply (failed_invocation_keeps_cache
           Scenario.parse Scenario.resolve Scenario.calling 0
           (HttpError 500 "overloaded")).
  reflexivity.
Defined.

(** C8, the claim as stated fails for malformed output: a completed
    exchange whose [choices] array is empty, or whose first choice has no
    content, is not an error for the code.  It is parsed as the empty
    response, ACTION_NIL replaces the cached ACTION_UP, and the reply to
    the next tick is not the one that the cache gave before. *)
Lemma empty_answer_commits_nil :
  let cached := fst (settle Scenario.calling 0 (Scenario.answered "ACTION_UP")) in
  let after (outcome : Backend) :=
    fst (LLMClient.run Scenario.parse Scenario.resolve cached
           [Scenario.tick; Immediate 2000 2000; Settled 0 outcome]) in
  let reply (w : World) :=
    snd (LLMClient.step Scenario.parse Scenario.resolve w Scenario.tick) in
  (pendingLLMAction (session cached) = Some "ACTION_UP" /\
   reply cached = [SocketWrite ("1#ACTION_UP#IMAGE" +++ nl)]) /\
  (pendingLLMAction (session (after (Body (Some [])))) = Some "ACTION_NIL" /\
   reply (after (Body (Some []))) = [SocketWrite ("1#ACTION_NIL#IMAGE" +++ nl)]) /\
  (pendingLLMAction (session (after (Body (Some [None])))) = Some "ACTION_NIL" /\
   reply (after (Body (Some [None])))
   = [SocketWrite ("1#ACTION_NIL#IMAGE" +++ nl)]).
Proof. vm_compute. repeat split. Qed.

Lemma completion_commits_in_every_state_witness :
  pendingLLMAction
    (session (fst (settle Scenario.calling 0
                     (Scenario.answered "I will go ACTION_UP now"))))
  = Some (parseAction (responseContent [Some "I will go ACTION_UP now"])
                      VALID_ACTIONS).
Proof.
  refine (proj1 (completion_commits_in_every_state
                   Scenario.calling 0 _ [Some "I will go ACTION_UP now"] _)).
  cbv. reflexivity.
Defined.

(** C3, the claim as stated fails: a call started on a tick completes after
    an END message has reset the state (level counter 1, cache null), or
    after the socket has closed, and its result is committed all the same. *)
Lemma stale_result_overwrites_cache :
  let atEnd := fst (LLMClient.run Scenario.parse Scenario.resolve Scenario.start
                      (firstn 3 Scenario.staleAfterEnd)) in
  let late := fst (LLMClient.run Scenario.parse Scenario.resolve Scenario.start
                     Scenario.staleAfterEnd) in
  let closed := fst (LLMClient.run Scenario.parse Scenario.resolve Scenario.start
                       Scenario.staleAfterClose) in
  (levelCount (session atEnd) = 1%nat /\
   pendingLLMAction (session atEnd) = None /\
   List.length (inflight atEnd) = 1%nat) /\
  (levelCount (session late) = 1%nat /\
   pendingLLMAction (session late) = Some "ACTION_UP") /\
  (gameActive (session closed) = false /\
   pendingLLMAction (session closed) = Some "ACTION_UP").
Proof. vm_compute. repeat split. Qed.

Lemma cached_action_lifetime_witness :
  pendingLLMAction
    (session (fst (LLMClient.step Scenario.parse Scenario.resolve
                     (fst (settle Scenario.calling 0
                             (Scenario.answered "ACTION_UP")))
                     Scenario.tick))) <> None.
Proof.
  apply (proj1 (proj2 (cached_action_lifetime
                         Scenario.parse Scenario.resolve
                         (fst (settle Scenario.calling 0
                                 (Scenario.answered "ACTION_UP")))))).
  - intros m Hm. inversion Hm; subst. vm_compute. discriminate.
  - vm_compute. discriminate.
Defined.

(** C4, the claim as stated fails: after the first invocation has
    completed the cache holds its action, and the END message that follows
    makes it null again. *)
Lemma cache_null_after_END :
  let completed := fst (LLMClient.run Scenario.parse Scenario.resolve
                          Scenario.start (firstn 3 Scenario.endAfterCompletion)) in
  let ended := fst (LLMClient.run Scenario.parse Scenario.resolve
                      Scenario.start Scenario.endAfterCompletion) in
  pendingLLMAction (session completed) = Some "ACTION_UP" /\
  pendingLLMAction (session ended) = None.
Proof. vm_compute. split; reflexivity. Qed.

Lemma act_reply_despite_malformed_payload_witness :
  LLMClient.processMessage Scenario.parse Scenario.resolve Scenario.start
    ("7" +++ "#" +++ Scenario.truncatedPayload)
  = (Scenario.start, []).
Proof.
  apply (proj2 (act_reply_despite_malformed_payload
                  Scenario.parse Scenario.resolve Scenario.start
                  "7" Scenario.truncatedPayload eq_refl eq_refl));
    [vm_compute; reflexivity | discriminate | discriminate].
Defined.

(** C5, the claim as stated fails: on an open socket, a tick whose payload
    was cut off before its phase is answered by nothing at all. *)
Lemma unclassified_message_gets_no_reply :
  socketReady (session Scenario.start) = true /\
  detectPhase Scenario.truncatedPayload = NoPhase /\
  Scenario.parse Scenario.truncatedPayload = None /\
  snd (LLMClient.processMessage Scenario.parse Scenario.resolve Scenario.start
         (Scenario.frame "7" Scenario.truncatedPayload)) = [].
Proof. vm_compute. repeat split. Qed.


(** In that run the calls start at 1001 and at 1402; the ticks in between
    start none. *)
Example burst_starts :
  startTimes (snd (LLMClient.run Scenario.parse Scenario.resolve Scenario.start
                     Scenario.burst)) = [1001; 1402]%Z.
Proof. vm_compute. reflexivity. Qed.


(** ** The input composer *)

Section ComposerFacts.

Variable replacer : string -> string -> string.

Lemma length_append (a b : string) :
  String.length (a +++ b) = (String.length a + String.length b)%nat.
Proof. induction a as [|c a IH]; cbn; [reflexivity | now rewrite IH]. Qed.

(** Passing over the characters of a match. *)
Lemma replaceFrom_skip (a rest : string) :
  replaceFrom replacer (String.length a) (a +++ rest)
  = replaceFrom replacer 0 rest.
Proof. induction a as [|c a IH]; cbn; [reflexivity | exact IH]. Qed.

Lemma word_then_brace (key t : string) :
  allWord key = true ->
  takeWord (key +++ String "}" t) = key /\
  dropWord (key +++ String "}" t) = String "}" t.
Proof.
  induction key as [|c key IH]; intros H; [split; reflexivity |].
  cbn [allWord] in H. apply andb_true_iff in H. destruct H as [Hc Hk].
  destruct (IH Hk) as [Ht Hd].
  cbn [String.append takeWord dropWord]. rewrite Hc, Ht, Hd. now split.
Qed.

Lemma placeholderHere_at (key r : string) :
  allWord key = true -> key <> EmptyString ->
  placeholderHere ("{{" +++ key +++ "}}" +++ r) = Some key.
Proof.
  intros Hw Hne. unfold placeholderHere.
  rewrite (dropPrefix_append "{{" (key +++ "}}" +++ r)).
  change ("}}" +++ r) with (String "}" (String "}" r)).
  destruct (word_then_brace key (String "}" r) Hw) as [Ht Hd].
  rewrite Ht, Hd.
  change (String "}" (String "}" r)) with ("}}" +++ r).
  rewrite (dropPrefix_append "}}" r).
  destruct key; [contradiction | reflexivity].
Qed.

(** A placeholder is handed to the replacer and the scan goes on behind
    it. *)
Lemma replace_at_placeholder (key r : string) :
  allWord key = true -> key <> EmptyString ->
  replacePlaceholders replacer ("{{" +++ key +++ "}}" +++ r)
  = replacer ("{{" +++ key +++ "}}") key +++ replacePlaceholders replacer r.
Proof.
  intros Hw Hne. unfold replacePlaceholders.
  pose proof (placeholderHere_at key r Hw Hne) as Hp.
  change ("{{" +++ key +++ "}}" +++ r)
    with (String "{" ("{" +++ key +++ "}}" +++ r)) in *.
  cbn [replaceFrom]. rewrite Hp. f_equal.
  replace ("{" +++ key +++ "}}" +++ r) with (("{" +++ key +++ "}}") +++ r)
    by (cbn; now rewrite append_assoc).
  replace (String.length key + 3)%nat with (String.length ("{" +++ key +++ "}}"))
    by (cbn; rewrite length_append; cbn; lia).
  apply replaceFrom_skip.
Qed.

(** Text without an opening brace is copied. *)
Lemma replace_plain (pre s : string) :
  hasChar "{" pre = false ->
  replacePlaceholders replacer (pre +++ s)
  = pre +++ replacePlaceholders replacer s.
Proof.
  unfold replacePlaceholders.
  induction pre as [|c pre IH]; intros H; [reflexivity |].
  cbn [hasChar] in H. apply orb_false_iff in H. destruct H as [Hc Hpre].
  cbn [String.append replaceFrom].
  assert (Hno : placeholderHere (String c (pre +++ s)) = None).
  { unfold placeholderHere. cbn [dropPrefix].
    rewrite Ascii.eqb_sym, Hc. reflexivity. }
  rewrite Hno, (IH Hpre). reflexivity.
Qed.

End ComposerFacts.

(** The composer on one placeholder: the value of [vars[key]] when the
    lookup gives one, the placeholder itself otherwise. *)
Lemma resolveTemplate_placeholder
    (pre key rest : string) (sso : StateObservation) (name : option string) :
  hasChar "{" pre = false ->
  allWord key = true -> key <> EmptyString ->
  exists tail,
    resolveTemplate (Some (pre +++ "{{" +++ key +++ "}}" +++ rest)) sso name
    = Some (pre +++
            match getProperty (vars sso name) key with
            | Some v => v
            | None => "{{" +++ key +++ "}}"
            end +++ tail).
Proof.
  intros Hpre Hw Hne. unfold resolveTemplate.
  assert (Hfalsy : falsy (pre +++ "{{" +++ key +++ "}}" +++ rest) = false)
    by (destruct pre; reflexivity).
  rewrite Hfalsy, replace_plain by exact Hpre.
  rewrite replace_at_placeholder by assumption.
  eexists. reflexivity.
Qed.

(** The names the composer recognizes are the own properties of [vars];
    a name that is neither one of them nor a property of
    [Object.prototype] is unknown to the lookup. *)
Lemma recognized_names (sso : StateObservation) (name : option string) :
  map fst (vars sso name)
  = [ "gameName"; "gameScore"; "avatarHealthPoints"; "gameTick";
      "availableActions"; "avatarPosition" ].
Proof. reflexivity. Qed.

Lemma assoc_None (key : string) (props : list (string * string)) :
  ~ In key (map fst props) -> assoc key props = None.
Proof.
  induction props as [|[k v] props IH]; intros H; [reflexivity |].
  cbn [assoc]. destruct (String.eqb key k) eqn:E.
  - apply String.eqb_eq in E. subst. exfalso. apply H. now left.
  - apply IH. intros Hin. apply H. now right.
Qed.

Lemma unknown_placeholder_verbatim
    (pre key rest : string) (sso : StateObservation) (name : option string) :
  hasChar "{" pre = false ->
  allWord key = true -> key <> EmptyString ->
  ~ In key (map fst (vars sso name)) ->
  ~ In key (map fst objectPrototype) ->
  exists tail,
    resolveTemplate (Some (pre +++ "{{" +++ key +++ "}}" +++ rest)) sso name
    = Some (pre +++ ("{{" +++ key +++ "}}") +++ tail).
Proof.
  intros Hpre Hw Hne Hown Hproto.
  destruct (resolveTemplate_placeholder pre key rest sso name Hpre Hw Hne)
    as [tail Ht].
  exists tail. rewrite Ht. unfold getProperty.
  now rewrite (assoc_None _ _ Hown), (assoc_None _ _ Hproto).
Qed.

(** The examples of the specification: the score is substituted and
    [{{foo}}] survives; the user message is the layers and the per-tick
    block joined by blank lines. *)
Example composer_examples :
  userMessage (buildPrompt Scenario.sampleObservation
                 (Some (Scenario.sampleConfig "Score is {{gameScore}}, {{foo}}")))
  = "Score is 42, {{foo}}" +++ nl +++ nl +++ tickState Scenario.sampleObservation /\
  resolveTemplate
    (Some "{{gameName}} {{avatarHealthPoints}} {{gameTick}} {{avatarPosition}} {{availableActions}}")
    Scenario.sampleObservation (Some "aliens")
  = Some "aliens 3 7 (3, 4) ACTION_UP, ACTION_USE" /\
  userMessage (buildPrompt Scenario.sampleObservation
                 (Some {| systemContent := None; gameContent := None;
                          levelContent := Some "Level two"; gameName := None;
                          maxTokens := None |}))
  = "Level two" +++ nl +++ nl +++ tickState Scenario.sampleObservation.
Proof. vm_compute. repeat split. Qed.

(** C9, at the failing input.  [constructor] and [toString] are not among
    the recognized names, yet the composer does not leave their
    placeholders verbatim: the lookup [vars[key]] finds the properties that
    the object literal inherits, and their text is substituted. *)
Theorem inherited_name_is_substituted :
  ~ In "constructor"
       (map fst (vars Scenario.sampleObservation (Some "aliens"))) /\
  resolveTemplate (Some "Beware {{constructor}}, {{foo}}")
                  Scenario.sampleObservation (Some "aliens")
  = Some "Beware function Object() { [native code] }, {{foo}}" /\
  userMessage (buildPrompt Scenario.sampleObservation
                 (Some (Scenario.sampleConfig "{{toString}}")))
  = "function toString() { [native code] }" +++ nl +++ nl
    +++ tickState Scenario.sampleObservation.
Proof.
  split; [| split; vm_compute; reflexivity].
  cbn. intros H.
  repeat (destruct H as [H|H]; [discriminate |]). exact H.
Qed.

(** ** The channel: complete and partial frames *)

Section Channel.

Variable JSON_parse : string -> option StateObservation.
Variable resolveGamePromptConfig : option Z -> nat -> PromptConfig.
Variable toString : Buffer -> string.

Local Abbreviation processMessage :=
  (LLMClient.processMessage JSON_parse resolveGamePromptConfig).
Local Abbreviation handleData :=
  (LLMClient.handleData JSON_parse resolveGamePromptConfig toString).

Lemma split_whole (sep : ascii) (s : string) :
  hasChar sep s = false -> split sep s = [s].
Proof.
  induction s as [|c s IH]; intros H; [reflexivity |].
  cbn [hasChar] in H. apply orb_false_iff in H. destruct H as [Hc Hs].
  cbn [split]. now rewrite Hc, (IH Hs).
Qed.

Lemma set_buffer_same (w : World) :
  with_session (set_buffer (buffer (session w)) (session w)) w = w.
Proof. destruct w as [[] ? ?]. reflexivity. Qed.

(** A chunk that decodes to one complete line, free of surrounding white
    space, is dispatched as that line. *)
Lemma handleData_one_frame (w : World) (data : Buffer) (line : string) :
  buffer (session w) = EmptyString ->
  toString data = line +++ nl ->
  hasChar (ascii_of_nat 10) line = false ->
  trim line = line ->
  falsy line = false ->
  handleData w data = processMessage w line.
Proof.
  intros Hb Hd Hnl Htrim Hne. unfold LLMClient.handleData.
  rewrite Hb, Hd. cbn [String.append].
  pose proof (split_first (ascii_of_nat 10) line EmptyString Hnl) as Hs.
  change (String (ascii_of_nat 10) EmptyString) with nl in Hs.
  rewrite Hs. cbn [split last removelast].
  rewrite <- Hb at 1. rewrite set_buffer_same.
  cbn [dispatch]. rewrite Htrim, Hne.
  destruct (processMessage w line) as [w1 out1]. now rewrite app_nil_r.
Qed.

(** A chunk that does not complete a line is kept in the buffer and
    nothing is dispatched. *)
Lemma handleData_partial (w : World) (data : Buffer) :
  hasChar (ascii_of_nat 10) (buffer (session w) +++ toString data) = false ->
  handleData w data
  = (with_session
       (set_buffer (buffer (session w) +++ toString data) (session w)) w,
     []).
Proof.
  intros H. unfold LLMClient.handleData. rewrite (split_whole _ _ H).
  reflexivity.
Qed.

End Channel.

(* ===================================================================== *)
(** * Further properties of the sources *)
(* ===================================================================== *)

Import Trace.

(** ** The channel: chunk boundaries *)

Section Chunks.

Variable JSON_parse : string -> option StateObservation.
Variable resolveGamePromptConfig : option Z -> nat -> PromptConfig.
Variable toString : Buffer -> string.

Local Abbreviation processMessage :=
  (LLMClient.processMessage JSON_parse resolveGamePromptConfig).
Local Abbreviation dispatch :=
  (LLMClient.dispatch JSON_parse resolveGamePromptConfig).
Local Abbreviation handleData :=
  (LLMClient.handleData JSON_parse resolveGamePromptConfig toString).

(** Splitting a text in two pieces: the lines completed by the first
    piece, then the lines of its unfinished rest followed by the second
    piece. *)
Lemma split_append (sep : ascii) (x y : string) :
  split sep (x +++ y)
  = removelast (split sep x)
    ++ split sep (last (split sep x) EmptyString +++ y).
Proof.
  induction x as [|c x IH]; [reflexivity |].
  cbn [String.append split].
  pose proof (split_nonempty sep x) as Hne.
  destruct (Ascii.eqb c sep) eqn:E.
  - rewrite IH. destruct (split sep x) as [|p ps]; [contradiction |].
    reflexivity.
  - rewrite IH. destruct (split sep x) as [|p [|p2 ps]]; [contradiction | |].
    + cbn [removelast last app String.append split]. rewrite E. reflexivity.
    + reflexivity.
Qed.

Lemma removelast_last_app {A : Type} (l1 l2 : list A) (d : A) :
  l2 <> [] ->
  removelast (l1 ++ l2) = l1 ++ removelast l2 /\
  last (l1 ++ l2) d = last l2 d.
Proof.
  intros Hne. split; [now apply removelast_app |].
  induction l1 as [|a l1 IH]; [reflexivity |].
  cbn [app last]. destruct (l1 ++ l2) eqn:E; [| exact IH].
  apply app_eq_nil in E. destruct E as [_ E]. contradiction.
Qed.

(** Handling a message neither reads nor writes the receive buffer. *)
Lemma processMessage_withBuffer (b : string) (w : World) (m : string) :
  processMessage (withBuffer b w) m
  = (withBuffer b (fst (processMessage w m)), snd (processMessage w m)).
Proof.
  unfold LLMClient.processMessage, withBuffer.
  destruct (falsy (messagePayload m)); [reflexivity |].
  destruct (String.eqb (messagePayload m) "START"); [reflexivity |].
  destruct (String.eqb (messagePayload m) "FINISH").
  { unfold _triggerSessionEnd. cbn.
    destruct (onSessionEnd (session w)); reflexivity. }
  destruct (detectPhase (messagePayload m)); try reflexivity.
  - destruct (JSON_parse (messagePayload m)); [| reflexivity].
    unfold handleInit. cbn. destruct (gameId (session w)); reflexivity.
  - destruct (JSON_parse (messagePayload m)); reflexivity.
Qed.

Lemma dispatch_withBuffer (b : string) (messages : list string) :
  forall w,
    dispatch (withBuffer b w) messages
    = (withBuffer b (fst (dispatch w messages)), snd (dispatch w messages)).
Proof.
  induction messages as [|m rest IH]; intros w; [reflexivity |].
  cbn [LLMClient.dispatch].
  destruct (falsy (trim m)); [apply IH |].
  rewrite processMessage_withBuffer.
  destruct (processMessage w (trim m)) as [w1 out1]. cbn [fst snd].
  rewrite IH. destruct (dispatch w1 rest) as [w2 out2]. reflexivity.
Qed.

Lemma dispatch_app (l1 l2 : list string) :
  forall w,
    dispatch w (l1 ++ l2)
    = (fst (dispatch (fst (dispatch w l1)) l2),
       snd (dispatch w l1) ++ snd (dispatch (fst (dispatch w l1)) l2)).
Proof.
  induction l1 as [|m rest IH]; intros w.
  - cbn. now destruct (dispatch w l2).
  - cbn [app LLMClient.dispatch].
    destruct (falsy (trim m)); [apply IH |].
    destruct (processMessage w (trim m)) as [w1 out1].
    rewrite IH. destruct (dispatch w1 rest) as [w2 out2]. cbn [fst snd].
    now rewrite app_assoc.
Qed.

Lemma withBuffer_twice (b b' : string) (w : World) :
  withBuffer b (withBuffer b' w) = withBuffer b w.
Proof. reflexivity. Qed.

Lemma withBuffer_buffer (b : string) (w : World) :
  buffer (session (withBuffer b w)) = b.
Proof. reflexivity. Qed.

Lemma hasChar_append (c : ascii) (a b : string) :
  hasChar c (a +++ b) = hasChar c a || hasChar c b.
Proof.
  induction a as [|x a IH]; [reflexivity |].
  cbn [String.append hasChar]. now rewrite IH, orb_assoc.
Qed.

(** What [handleData] does, read off the text in the buffer once the
    chunk is decoded and appended. *)
Lemma handleData_lines (w : World) (data : Buffer) :
  handleData w data
  = (withBuffer
       (last (split (ascii_of_nat 10) (buffer (session w) +++ toString data))
             EmptyString)
       (fst (dispatch w (removelast
                           (split (ascii_of_nat 10)
                                  (buffer (session w) +++ toString data))))),
     snd (dispatch w (removelast
                        (split (ascii_of_nat 10)
                               (buffer (session w) +++ toString data))))).
Proof.
  unfold LLMClient.handleData.
  apply (dispatch_withBuffer
           (last (split (ascii_of_nat 10)
                        (buffer (session w) +++ toString data))
                 EmptyString)).
Qed.

(** A chunk whose text ends the line begun in the buffer: that line is
    dispatched and the buffer is left empty. *)
Lemma handleData_completes (w : World) (data : Buffer) (rest : string) :
  toString data = rest +++ nl ->
  hasChar (ascii_of_nat 10) (buffer (session w) +++ rest) = false ->
  trim (buffer (session w) +++ rest) = buffer (session w) +++ rest ->
  falsy (buffer (session w) +++ rest) = false ->
  handleData w data
  = (withBuffer EmptyString
       (fst (processMessage w (buffer (session w) +++ rest))),
     snd (processMessage w (buffer (session w) +++ rest))).
Proof.
  intros Hd Hnl Htrim Hne. rewrite handleData_lines, Hd.
  rewrite <- append_assoc.
  pose proof (split_first (ascii_of_nat 10) (buffer (session w) +++ rest)
                EmptyString Hnl) as Hs.
  change (String (ascii_of_nat 10) EmptyString) with nl in Hs.
  rewrite Hs. cbn [split last removelast LLMClient.dispatch].
  rewrite Htrim, Hne.
  destruct (processMessage w (buffer (session w) +++ rest)) as [w1 out1].
  cbn [fst snd]. now rewrite app_nil_r.
Qed.

(** X1.  The framing does not depend on how the stream is cut into
    chunks, as long as no cut falls inside a character: [handleData]
    decodes every chunk on its own, and when the texts of [a] and of [b]
    make up the text of [a] followed by [b] (as they do for every cut of
    an ASCII stream, and for every cut between two characters), receiving
    [a] and then [b] dispatches the same messages, in the same order, and
    leaves the same state and buffer as receiving both in one chunk. *)
Theorem handleData_chunks (w : World) (a b : Buffer)
    (Hcut : toString (a ++ b) = toString a +++ toString b) :
  handleData w (a ++ b)
  = (fst (handleData (fst (handleData w a)) b),
     snd (handleData w a) ++ snd (handleData (fst (handleData w a)) b)).
Proof.
  rewrite (handleData_lines w a). cbn [fst snd].
  set (lines := split (ascii_of_nat 10) (buffer (session w) +++ toString a)).
  set (w1 := fst (dispatch w (removelast lines))).
  rewrite (handleData_lines (withBuffer (last lines EmptyString) w1) b).
  rewrite withBuffer_buffer. cbn [fst snd].
  set (rest := split (ascii_of_nat 10)
                     (last lines EmptyString +++ toString b)).
  rewrite (handleData_lines w (a ++ b)), Hcut.
  assert (Hall : split (ascii_of_nat 10)
                       (buffer (session w) +++ toString a +++ toString b)
                 = removelast lines ++ rest).
  { rewrite <- append_assoc. apply split_append. }
  assert (Hrest : rest <> []) by apply split_nonempty.
  destruct (removelast_last_app (removelast lines) rest EmptyString Hrest)
    as [Hrm Hlast].
  rewrite Hall, Hrm, Hlast, dispatch_app. cbn [fst snd]. fold w1.
  rewrite (dispatch_withBuffer (last lines EmptyString)). cbn [fst snd].
  rewrite withBuffer_twice. reflexivity.
Qed.

(** X2.  A frame that arrives in two chunks is dispatched once, when the
    chunk with its newline arrives: the first chunk produces no effect,
    and the second is handled exactly as the line made of the text of the
    first chunk followed by the text of the second up to its newline.
    Every chunk being decoded on its own, that line is the frame that was
    sent whenever the cut does not fall inside a character. *)
Theorem frame_across_chunks (w : World) (a b : Buffer) (rest : string)
    (Hbuffer : buffer (session w) = EmptyString)
    (Hsecond : toString b = rest +++ nl)
    (Hline : hasChar (ascii_of_nat 10) (toString a +++ rest) = false)
    (Htrim : trim (toString a +++ rest) = toString a +++ rest)
    (Hne : falsy (toString a +++ rest) = false) :
  snd (handleData w a) = [] /\
  handleData (fst (handleData w a)) b
  = processMessage w (toString a +++ rest).
Proof.
  assert (Ha : hasChar (ascii_of_nat 10) (toString a) = false).
  { rewrite hasChar_append in Hline. now apply orb_false_iff in Hline. }
  assert (Hfirst : handleData w a = (withBuffer (toString a) w, [])).
  { rewrite (handleData_partial JSON_parse resolveGamePromptConfig toString);
      rewrite Hbuffer; [reflexivity | exact Ha]. }
  rewrite Hfirst. cbn [fst snd]. split; [reflexivity |].
  rewrite (handleData_completes (withBuffer (toString a) w) b rest Hsecond);
    rewrite ?withBuffer_buffer; try assumption.
  rewrite processMessage_withBuffer. cbn [fst snd]. rewrite withBuffer_twice.
  pose proof (processMessage_withBuffer EmptyString w (toString a +++ rest))
    as Hp.
  assert (Hw : withBuffer EmptyString w = w).
  { unfold withBuffer. rewrite <- Hbuffer. apply set_buffer_same. }
  rewrite Hw in Hp. symmetry. exact Hp.
Qed.

End Chunks.

(** ** The relay: replies, teardown and level bookkeeping *)

Section RelayMore.

Variable JSON_parse : string -> option StateObservation.
Variable resolveGamePromptConfig : option Z -> nat -> PromptConfig.

Local Abbreviation processMessage :=
  (LLMClient.processMessage JSON_parse resolveGamePromptConfig).
Local Abbreviation runImmediate := (LLMClient.runImmediate JSON_parse).
Local Abbreviation step := (LLMClient.step JSON_parse resolveGamePromptConfig).
Local Abbreviation run := (LLMClient.run JSON_parse resolveGamePromptConfig).

Lemma writes_app (a b : list Effect) :
  writes (a ++ b) = writes a ++ writes b.
Proof.
  induction a as [|x a IH]; [reflexivity |].
  destruct x; cbn [app writes]; now rewrite ?IH.
Qed.

Lemma writes_emit (s : Session) (e : UiEvent) : writes (emit s e) = [].
Proof. unfold emit. now destruct (ioAttached s). Qed.

Lemma writes_send_open (s : Session) (msgId msg : string) :
  socketReady s = true ->
  writes (sendMessageWithId s msgId msg) = [msgId +++ "#" +++ msg +++ nl].
Proof. intros H. unfold sendMessageWithId. now rewrite H. Qed.

Lemma writes_send_closed (s : Session) (msgId msg : string) :
  socketReady s = false -> writes (sendMessageWithId s msgId msg) = [].
Proof. intros H. unfold sendMessageWithId. now rewrite H. Qed.

Lemma writes_trigger (s : Session) :
  writes (snd (_triggerSessionEnd s)) = [].
Proof. unfold _triggerSessionEnd. now destruct (onSessionEnd s). Qed.

(** X3.  On an open socket every message is answered by at most one
    frame, and that frame carries the id of the message: START and every
    message with a phase marker get exactly one reply, out of six
    possible bodies; an empty payload, FINISH and a payload without a
    phase marker get none. *)
Theorem one_reply_per_message (w : World) (m : string)
    (Hopen : socketReady (session w) = true) :
  let payload := messagePayload m in
  let out := snd (processMessage w m) in
  (payload = "START" \/
   (payload <> "FINISH" /\ detectPhase payload <> NoPhase) ->
   exists body,
     writes out = [messageId m +++ "#" +++ body +++ nl] /\
     In body [ "START_DONE"; actionToSend (session w) +++ "#IMAGE";
               "INIT_DONE#BOTH"; "INIT_FAILED"; "END_DONE"; "END_FAILED" ]) /\
  (payload = EmptyString \/ payload = "FINISH" \/
   (payload <> "START" /\ detectPhase payload = NoPhase) ->
   writes out = []).
Proof.
  intros payload out. subst out. unfold LLMClient.processMessage.
  fold payload. split.
  - intros Hcase.
    destruct (falsy payload) eqn:Ef.
    { destruct payload; [| discriminate].
      destruct Hcase as [H | [_ H]]; [discriminate |].
      exfalso. apply H. reflexivity. }
    destruct (String.eqb payload "START") eqn:Es.
    { exists "START_DONE". cbn [snd]. rewrite writes_send_open by exact Hopen.
      split; [reflexivity | now left]. }
    apply String.eqb_neq in Es.
    destruct Hcase as [H | [Hf Hp]]; [contradiction |].
    apply String.eqb_neq in Hf. rewrite Hf.
    destruct (detectPhase payload); [| | | contradiction].
    + eexists. cbn [snd]. rewrite writes_send_open by exact Hopen.
      split; [reflexivity | right; now left].
    + destruct (JSON_parse payload).
      * exists "INIT_DONE#BOTH". unfold handleInit. cbn [snd].
        rewrite writes_send_open
          by (destruct (gameId (session w)); exact Hopen).
        split; [reflexivity | do 2 right; now left].
      * exists "INIT_FAILED". cbn [snd].
        rewrite writes_send_open by exact Hopen.
        split; [reflexivity | do 3 right; now left].
    + destruct (JSON_parse payload).
      * exists "END_DONE". unfold handleEnd. cbn [snd].
        rewrite writes_app, writes_emit, writes_send_open by exact Hopen.
        split; [reflexivity | do 4 right; now left].
      * exists "END_FAILED". cbn [snd].
        rewrite writes_send_open by exact Hopen.
        split; [reflexivity | do 5 right; now left].
  - intros Hcase.
    destruct (falsy payload) eqn:Ef; [reflexivity |].
    destruct (String.eqb payload "START") eqn:Es.
    { apply String.eqb_eq in Es.
      destruct Hcase as [H | [H | [H _]]].
      - rewrite H in Ef. discriminate.
      - rewrite Es in H. discriminate.
      - contradiction. }
    destruct (String.eqb payload "FINISH") eqn:Efin.
    { destruct (_triggerSessionEnd (set_gameActive false (session w)))
        as [s2 out2] eqn:Et.
      cbn [snd]. rewrite writes_app, writes_emit.
      pose proof (writes_trigger (set_gameActive false (session w))) as Ht.
      rewrite Et in Ht. exact Ht. }
    apply String.eqb_neq in Efin.
    destruct Hcase as [H | [H | [_ H]]].
    + rewrite H in Ef. discriminate.
    + contradiction.
    + rewrite H. reflexivity.
Qed.

Lemma one_step_closed (w : World) (e : Event) :
  socketReady (session w) = false ->
  socketReady (session (fst (step w e))) = false /\
  writes (snd (step w e)) = [].
Proof.
  intros Hc. destruct e as [m | now clock | k o | |]; cbn [LLMClient.step].
  - unfold LLMClient.processMessage.
    destruct (falsy (messagePayload m)); [now split |].
    destruct (String.eqb (messagePayload m) "START").
    { split; [exact Hc | now apply writes_send_closed]. }
    destruct (String.eqb (messagePayload m) "FINISH").
    { unfold _triggerSessionEnd. cbn.
      destruct (onSessionEnd (session w)); cbn;
        (split; [exact Hc |]); rewrite writes_app, writes_emit; reflexivity. }
    destruct (detectPhase (messagePayload m)).
    + split; [exact Hc | now apply writes_send_closed].
    + destruct (JSON_parse (messagePayload m)).
      * unfold handleInit. cbn [fst snd].
        destruct (gameId (session w)); cbn [with_session session];
          (split; [exact Hc | now apply writes_send_closed]).
      * split; [exact Hc | now apply writes_send_closed].
    + destruct (JSON_parse (messagePayload m)).
      * unfold handleEnd. cbn [fst snd with_session session].
        split; [exact Hc |].
        rewrite writes_app, writes_emit. now apply writes_send_closed.
      * split; [exact Hc | now apply writes_send_closed].
    + now split.
  - unfold LLMClient.runImmediate.
    destruct (immediates w) as [|d rest]; [now split |].
    set (ui := match JSON_parse (d_payload d) with
               | Some sso => emit (session w) _
               | None => []
               end).
    assert (Hui : writes ui = []).
    { subst ui. destruct (JSON_parse (d_payload d));
        [apply writes_emit | reflexivity]. }
    destruct (negb (llmCallInProgress (session w)) &&
              (400 <=? now - lastLLMCallTime (session w))%Z).
    + unfold LLMClient.startAsyncLLMCall.
      destruct (JSON_parse (d_payload d)); cbn [fst snd];
        (split; [exact Hc | rewrite writes_app, Hui; reflexivity]).
    + split; [exact Hc | exact Hui].
  - unfold settle. destruct (nth_error (inflight w) k); [| now split].
    destruct o as [| status errorText | | [choices|]]; cbn [fst snd];
      (split; [exact Hc | try reflexivity; apply writes_emit]).
  - unfold socketClosed, _triggerSessionEnd. cbn.
    destruct (onSessionEnd (session w)); now split.
  - now split.
Qed.

(** X4.  Once the socket is closed or the client disconnected, no frame
    is written any more, whatever arrives afterwards: late messages,
    queued callbacks or completions of backend calls. *)
Theorem closed_socket_never_writes (events : list Event) (w : World)
    (Hclosed : socketReady (session w) = false) :
  writes (snd (run w events)) = [] /\
  socketReady (session (fst (run w events))) = false.
Proof.
  revert w Hclosed. induction events as [|e rest IH]; intros w Hc.
  - now split.
  - rewrite run_cons. cbn [fst snd].
    destruct (one_step_closed w e Hc) as [Hc1 Hw1].
    destruct (IH _ Hc1) as [Hw Hs].
    split; [| exact Hs]. now rewrite writes_app, Hw1, Hw.
Qed.

End RelayMore.

Lemma asciiText_app (a b : Buffer) :
  Samples.asciiText (a ++ b) = Samples.asciiText a +++ Samples.asciiText b.
Proof.
  unfold Samples.asciiText, string_of_list_byte.
  induction a as [|x a IH]; [reflexivity |].
  cbn [app map string_of_list_ascii String.append]. now rewrite IH.
Qed.

Lemma handleData_chunks_witness :
  LLMClient.handleData Scenario.parse Scenario.resolve Samples.asciiText
    Scenario.start
    (Samples.bytes ("1#STA") ++ Samples.bytes ("RT" +++ nl +++ "2#"))
  = (fst (LLMClient.handleData Scenario.parse Scenario.resolve
            Samples.asciiText
            (fst (LLMClient.handleData Scenario.parse Scenario.resolve
                    Samples.asciiText Scenario.start (Samples.bytes "1#STA")))
            (Samples.bytes ("RT" +++ nl +++ "2#"))),
     snd (LLMClient.handleData Scenario.parse Scenario.resolve
            Samples.asciiText Scenario.start (Samples.bytes "1#STA"))
     ++ snd (LLMClient.handleData Scenario.parse Scenario.resolve
               Samples.asciiText
               (fst (LLMClient.handleData Scenario.parse Scenario.resolve
                       Samples.asciiText Scenario.start
                       (Samples.bytes "1#STA")))
               (Samples.bytes ("RT" +++ nl +++ "2#")))).
Proof.
  apply (handleData_chunks Scenario.parse Scenario.resolve Samples.asciiText
           Scenario.start (Samples.bytes "1#STA")
           (Samples.bytes ("RT" +++ nl +++ "2#"))).
  vm_compute. reflexivity.
Defined.

(** In that run the frame cut in two is answered once, and the start of
    the next frame waits in the buffer. *)
Example chunked_start :
  let reached :=
    LLMClient.handleData Scenario.parse Scenario.resolve Samples.asciiText
      (fst (LLMClient.handleData Scenario.parse Scenario.resolve
              Samples.asciiText Scenario.start (Samples.bytes "1#STA")))
      (Samples.bytes ("RT" +++ nl +++ "2#")) in
  writes (snd reached) = ["1#START_DONE" +++ nl] /\
  buffer (session (fst reached)) = "2#".
Proof. vm_compute. split; reflexivity. Qed.

Lemma frame_across_chunks_witness :
  snd (LLMClient.handleData Scenario.parse Scenario.resolve Samples.asciiText
         Scenario.start (Samples.bytes "1#"))
  = [] /\
  LLMClient.handleData Scenario.parse Scenario.resolve Samples.asciiText
    (fst (LLMClient.handleData Scenario.parse Scenario.resolve
            Samples.asciiText Scenario.start (Samples.bytes "1#")))
    (Samples.bytes (Scenario.phasePayload "ACT" +++ nl))
  = LLMClient.processMessage Scenario.parse Scenario.resolve Scenario.start
      (Samples.asciiText (Samples.bytes "1#") +++ Scenario.phasePayload "ACT").
Proof.
  apply (frame_across_chunks Scenario.parse Scenario.resolve Samples.asciiText
           Scenario.start (Samples.bytes "1#")
           (Samples.bytes (Scenario.phasePayload "ACT" +++ nl))
           (Scenario.phasePayload "ACT"));
    vm_compute; reflexivity.
Defined.

Lemma one_reply_per_message_witness :
  exists body,
    writes (snd (LLMClient.processMessage Scenario.parse Scenario.resolve
                   Scenario.start "9#START"))
    = [messageId "9#START" +++ "#" +++ body +++ nl].
Proof.
  destruct (proj1 (one_reply_per_message Scenario.parse Scenario.resolve
                     Scenario.start "9#START" eq_refl)
                  (or_introl eq_refl)) as [body [Hw _]].
  exists body. exact Hw.
Defined.

Lemma closed_socket_never_writes_witness :
  writes (snd (LLMClient.run Scenario.parse Scenario.resolve
                 (fst (disconnect Scenario.calling))
                 [Scenario.tick; Immediate 2000 2000;
                  Settled 0 (Scenario.answered "ACTION_UP")])) = [].
Proof.
  apply (closed_socket_never_writes Scenario.parse Scenario.resolve
           [Scenario.tick; Immediate 2000 2000;
            Settled 0 (Scenario.answered "ACTION_UP")]
           (fst (disconnect Scenario.calling))).
  reflexivity.
Defined.

Section SessionBookkeeping.

Variable JSON_parse : string -> option StateObservation.
Variable resolveGamePromptConfig : option Z -> nat -> PromptConfig.

Local Abbreviation processMessage :=
  (LLMClient.processMessage JSON_parse resolveGamePromptConfig).
Local Abbreviation step := (LLMClient.step JSON_parse resolveGamePromptConfig).
Local Abbreviation run := (LLMClient.run JSON_parse resolveGamePromptConfig).

Lemma callbacks_app (a b : list Effect) :
  callbacks (a ++ b) = (callbacks a + callbacks b)%nat.
Proof.
  induction a as [|x a IH]; [reflexivity |].
  destruct x; cbn [app callbacks]; rewrite ?IH; reflexivity.
Qed.

Lemma callbacks_send (s : Session) (msgId msg : string) :
  callbacks (sendMessageWithId s msgId msg) = 0%nat.
Proof. unfold sendMessageWithId. now destruct (socketReady s). Qed.

Lemma callbacks_emit (s : Session) (e : UiEvent) : callbacks (emit s e) = 0%nat.
Proof. unfold emit. now destruct (ioAttached s). Qed.

(** A turn calls the callback only if it is registered, and unregisters
    it when it does. *)
Lemma step_callback (w : World) (e : Event) :
  (callbacks (snd (step w e)) + armed (session (fst (step w e)))
   <= armed (session w))%nat.
Proof.
  destruct e as [m | now clock | k o | |]; cbn [LLMClient.step].
  - unfold LLMClient.processMessage.
    destruct (falsy (messagePayload m)); [cbn [fst snd callbacks]; lia |].
    destruct (String.eqb (messagePayload m) "START").
    { cbn [fst snd]. rewrite callbacks_send. lia. }
    destruct (String.eqb (messagePayload m) "FINISH").
    { unfold _triggerSessionEnd, emit, armed. cbn.
      destruct (onSessionEnd (session w)) eqn:E, (ioAttached (session w));
        cbn; rewrite ?E; lia. }
    destruct (detectPhase (messagePayload m)).
    + cbn [fst snd session]. rewrite callbacks_send. lia.
    + destruct (JSON_parse (messagePayload m)).
      * unfold handleInit. cbn [fst snd].
        destruct (gameId (session w)); cbn [with_session session];
          rewrite callbacks_send; unfold armed; cbn; destruct (onSessionEnd (session w)); lia.
      * cbn [fst snd]. rewrite callbacks_send. lia.
    + destruct (JSON_parse (messagePayload m)).
      * unfold handleEnd. cbn [fst snd with_session session].
        rewrite callbacks_app, callbacks_emit, callbacks_send.
        unfold armed. cbn. destruct (onSessionEnd (session w)); lia.
      * cbn [fst snd]. rewrite callbacks_send. lia.
    + cbn [fst snd callbacks]. lia.
  - unfold LLMClient.runImmediate.
    destruct (immediates w) as [|d rest]; [cbn [fst snd callbacks]; lia |].
    set (ui := match JSON_parse (d_payload d) with
               | Some sso => emit (session w) _
               | None => []
               end).
    assert (Hui : callbacks ui = 0%nat).
    { subst ui. destruct (JSON_parse (d_payload d));
        [apply callbacks_emit | reflexivity]. }
    destruct (negb (llmCallInProgress (session w)) &&
              (400 <=? now - lastLLMCallTime (session w))%Z).
    + unfold LLMClient.startAsyncLLMCall.
      destruct (JSON_parse (d_payload d)); cbn [fst snd];
        rewrite callbacks_app, Hui; unfold armed; cbn; destruct (onSessionEnd (session w)); lia.
    + cbn [fst snd session]. rewrite Hui. lia.
  - unfold settle. destruct (nth_error (inflight w) k); [| cbn [fst snd callbacks]; lia].
    destruct o as [| status errorText | | [choices|]]; cbn [fst snd];
      rewrite ?callbacks_emit; unfold armed; cbn; destruct (onSessionEnd (session w)); lia.
  - unfold socketClosed, _triggerSessionEnd, armed. cbn.
    destruct (onSessionEnd (session w)) eqn:E; cbn; rewrite ?E; lia.
  - unfold armed. cbn. destruct (onSessionEnd (session w)); lia.
Qed.

(** X5.  Teardown is notified at most once: over every run, with FINISH,
    socket closes and disconnects in any number and order, the
    session-end callback is called at most once, never after a
    [disconnect()], and not at all when none is registered. *)
Theorem session_end_callback_once (events : list Event) (w : World) :
  (callbacks (snd (run w events)) <= 1)%nat /\
  (onSessionEnd (session w) = false -> callbacks (snd (run w events)) = 0%nat) /\
  (forall after,
      callbacks (snd (run (fst (run w (events ++ [Disconnect]))) after))
      = 0%nat).
Proof.
  assert (Hgen : forall evs w0,
             (callbacks (snd (run w0 evs)) + armed (session (fst (run w0 evs)))
              <= armed (session w0))%nat).
  { induction evs as [|e rest IH]; intros w0; [cbn; lia |].
    rewrite run_cons. cbn [fst snd]. rewrite callbacks_app.
    pose proof (step_callback w0 e) as H1.
    pose proof (IH (fst (step w0 e))) as H2. lia. }
  assert (Hafter : forall evs w0,
             onSessionEnd (session (fst (run w0 (evs ++ [Disconnect]))))
             = false).
  { induction evs as [|e rest IH]; intros w0.
    - reflexivity.
    - cbn [app]. rewrite run_cons. cbn [fst]. apply IH. }
  repeat split.
  - pose proof (Hgen events w) as H. unfold armed in H.
    destruct (onSessionEnd (session w)),
             (onSessionEnd (session (fst (run w events)))); lia.
  - intros Hoff. pose proof (Hgen events w) as H. unfold armed in H.
    rewrite Hoff in H. lia.
  - intros after.
    pose proof (Hgen after (fst (run w (events ++ [Disconnect])))) as H.
    unfold armed in H at 2. rewrite Hafter in H. lia.
Qed.

Lemma levelEnds_app (a b : list Effect) :
  levelEnds (a ++ b) = levelEnds a ++ levelEnds b.
Proof.
  induction a as [|x a IH]; [reflexivity |].
  destruct x as [| | u | | |]; cbn [app levelEnds]; rewrite ?IH; try reflexivity.
  destruct u; rewrite ?IH; reflexivity.
Qed.

Lemma levelEnds_send (s : Session) (msgId msg : string) :
  levelEnds (sendMessageWithId s msgId msg) = [].
Proof. unfold sendMessageWithId. now destruct (socketReady s). Qed.

(** A turn either leaves the level counter alone and announces nothing,
    or adds one to it and announces the new value. *)
Lemma step_level (w : World) (e : Event) :
  ioAttached (session w) = true ->
  ioAttached (session (fst (step w e))) = true /\
  ((levelCount (session (fst (step w e))) = levelCount (session w) /\
    levelEnds (snd (step w e)) = []) \/
   (levelCount (session (fst (step w e))) = S (levelCount (session w)) /\
    levelEnds (snd (step w e)) = [S (levelCount (session w))])).
Proof.
  intros Hio. destruct e as [m | now clock | k o | |]; cbn [LLMClient.step].
  - unfold LLMClient.processMessage.
    destruct (falsy (messagePayload m)); [split; [exact Hio | now left] |].
    destruct (String.eqb (messagePayload m) "START").
    { split; [exact Hio | left; split; [reflexivity | apply levelEnds_send]]. }
    destruct (String.eqb (messagePayload m) "FINISH").
    { unfold _triggerSessionEnd, emit. cbn. rewrite Hio.
      destruct (onSessionEnd (session w)); cbn;
        (split; [exact Hio | now left]). }
    destruct (detectPhase (messagePayload m)).
    + split; [exact Hio | left; split; [reflexivity | apply levelEnds_send]].
    + destruct (JSON_parse (messagePayload m)).
      * unfold handleInit. cbn [fst snd].
        destruct (gameId (session w)); cbn [with_session session];
          (split; [exact Hio |
                   left; split; [reflexivity | apply levelEnds_send]]).
      * split; [exact Hio | left; split; [reflexivity | apply levelEnds_send]].
    + destruct (JSON_parse (messagePayload m)).
      * unfold handleEnd, emit. cbn [fst snd with_session session].
        cbn. rewrite Hio. split; [reflexivity |]. right.
        split; [reflexivity |].
        cbn [app levelEnds]. now rewrite levelEnds_send.
      * split; [exact Hio | left; split; [reflexivity | apply levelEnds_send]].
    + split; [exact Hio | now left].
  - unfold LLMClient.runImmediate.
    destruct (immediates w) as [|d rest]; [split; [exact Hio | now left] |].
    set (ui := match JSON_parse (d_payload d) with
               | Some sso => emit (session w) _
               | None => []
               end).
    assert (Hui : levelEnds ui = []).
    { subst ui. destruct (JSON_parse (d_payload d)); [| reflexivity].
      unfold emit. now rewrite Hio. }
    destruct (negb (llmCallInProgress (session w)) &&
              (400 <=? now - lastLLMCallTime (session w))%Z).
    + unfold LLMClient.startAsyncLLMCall.
      destruct (JSON_parse (d_payload d)); cbn [fst snd];
        (split; [exact Hio |
                 left; split; [reflexivity |
                               rewrite levelEnds_app, Hui; reflexivity]]).
    + split; [exact Hio | left; split; [reflexivity | exact Hui]].
  - unfold settle. destruct (nth_error (inflight w) k);
      [| split; [exact Hio | now left]].
    destruct o as [| status errorText | | [choices|]]; cbn [fst snd];
      (split; [exact Hio | left; split; [reflexivity |]]);
      try reflexivity; unfold emit; cbn; rewrite Hio; reflexivity.
  - unfold socketClosed, _triggerSessionEnd. cbn.
    destruct (onSessionEnd (session w)); cbn; (split; [exact Hio | now left]).
  - split; [exact Hio | now left].
Qed.

(** X6.  The level counter never decreases, and with a browser attached
    the [level-end] events of a run announce exactly the levels counted:
    consecutive numbers, from the one after the counter at the start up
    to the counter at the end. *)
Theorem level_counter_matches_announcements (events : list Event) (w : World)
    (Hio : ioAttached (session w) = true) :
  (levelCount (session w) <= levelCount (session (fst (run w events))))%nat /\
  levelEnds (snd (run w events))
  = seq (S (levelCount (session w)))
        (levelCount (session (fst (run w events))) - levelCount (session w)).
Proof.
  revert w Hio. induction events as [|e rest IH]; intros w Hio.
  - cbn [LLMClient.run fst snd levelEnds]. rewrite Nat.sub_diag. now split.
  - rewrite run_cons. cbn [fst snd]. rewrite levelEnds_app.
    destruct (step_level w e Hio) as [Hio1 Hstep].
    destruct (IH _ Hio1) as [Hle Hseq]. rewrite Hseq.
    destruct Hstep as [[Hsame Hnone] | [Hnext Hone]].
    + rewrite Hnone, Hsame in *. now split.
    + rewrite Hone, Hnext in *. split; [lia |].
      replace (levelCount (session (fst (run (fst (step w e)) rest)))
               - levelCount (session w))%nat
        with (S (levelCount (session (fst (run (fst (step w e)) rest)))
                 - S (levelCount (session w))))%nat by lia.
      reflexivity.
Qed.

Lemma take_take (n : nat) (s : string) : take n (take n s) = take n s.
Proof.
  revert s. induction n as [|n IH]; intros s; [reflexivity |].
  destruct s as [|c s]; [reflexivity |]. cbn [take]. now rewrite IH.
Qed.

(** X7.  Classification is decided by the first 2000 characters whenever
    they hold a phase marker: two payloads with the same first 2000
    characters, a marker among them, have the same phase, whatever
    follows. *)
Theorem phase_decided_by_head (p q : string)
    (Hhead : take 2000 p = take 2000 q)
    (Hmarker : detectPhase (take 2000 p) <> NoPhase) :
  detectPhase p = detectPhase q /\ detectPhase p = detectPhase (take 2000 p).
Proof.
  assert (Hgen : forall r, take 2000 r = take 2000 p -> detectPhase r = detectPhase (take 2000 p)).
  { intros r Hr. revert Hmarker. unfold detectPhase.
    rewrite take_take, Hr.
    destruct (includes (take 2000 p) (phaseMarker "ACT")),
             (includes (take 2000 p) (phaseMarker "INIT")),
             (includes (take 2000 p) (phaseMarker "END"));
      cbn [negb andb]; try reflexivity.
    intros Hm.
    destruct (includes r (phaseMarker "ACT")),
             (includes r (phaseMarker "INIT")),
             (includes r (phaseMarker "END")); try reflexivity;
      exfalso; apply Hm; reflexivity. }
  split.
  - now rewrite (Hgen p eq_refl), (Hgen q (eq_sym Hhead)).
  - apply Hgen. reflexivity.
Qed.

Lemma nameFor_not_empty (client : string) (resolved : PromptConfig) :
  client <> EmptyString -> nameFor client resolved <> EmptyString.
Proof.
  intros Hc. unfold nameFor.
  destruct (gameName resolved) as [[|c n]|]; try exact Hc. discriminate.
Qed.

(** [withGameName] is the only place in which the name of a resolved
    configuration is written. *)
Lemma withGameName_holds (client : string) (resolved : PromptConfig)
    (s : Session) :
  promptConfig s = Some (withGameName client resolved) ->
  holds client resolved s.
Proof.
  intros Hs. exists (withGameName client resolved). split; [exact Hs |].
  unfold withGameName, nameFor.
  destruct (gameName resolved) as [[|c n]|] eqn:En; cbn; rewrite ?En;
    repeat split; reflexivity.
Qed.

Lemma step_resolvedSoFar (game : option Z) (client : string) (w : World)
    (e : Event) :
  resolvedSoFar resolveGamePromptConfig game client w ->
  resolvedSoFar resolveGamePromptConfig game client (fst (step w e)).
Proof.
  intros Hn. destruct e as [m | now clock | k o | |]; cbn [LLMClient.step].
  - unfold LLMClient.processMessage.
    destruct (falsy (messagePayload m)); [exact Hn |].
    destruct (String.eqb (messagePayload m) "START"); [exact Hn |].
    destruct (String.eqb (messagePayload m) "FINISH").
    { unfold _triggerSessionEnd. cbn.
      destruct (onSessionEnd (session w)); exact Hn. }
    destruct (detectPhase (messagePayload m)); try exact Hn.
    + destruct (JSON_parse (messagePayload m)); [| exact Hn].
      unfold handleInit. cbn [fst].
      destruct (gameId (session w)) as [g|] eqn:Eg; [| exact Hn].
      destruct Hn as [Hgame [Hclient _]].
      split; [exact Hgame | split; [exact Hclient |]].
      exists (levelCount (session w)). split; [cbn; lia |].
      apply withGameName_holds. cbn. rewrite Hclient, <- Hgame, Eg.
      reflexivity.
    + destruct (JSON_parse (messagePayload m)); [| exact Hn].
      destruct Hn as [Hgame [Hclient [lvl [Hle Hh]]]].
      split; [exact Hgame | split; [exact Hclient |]].
      exists lvl. split; [| exact Hh].
      unfold handleEnd. cbn. lia.
  - unfold LLMClient.runImmediate.
    destruct (immediates w) as [|d rest]; [exact Hn |].
    destruct (negb (llmCallInProgress (session w)) &&
              (400 <=? now - lastLLMCallTime (session w))%Z); [| exact Hn].
    unfold LLMClient.startAsyncLLMCall.
    destruct (JSON_parse (d_payload d)); exact Hn.
  - unfold settle. destruct (nth_error (inflight w) k); [| exact Hn].
    destruct o as [| status errorText | | [choices|]]; exact Hn.
  - unfold socketClosed, _triggerSessionEnd. cbn.
    destruct (onSessionEnd (session w)); exact Hn.
  - exact Hn.
Qed.

(** X8.  From [connect] on, through every run, the session holds a
    prompt configuration resolved for its game at one of the levels
    reached so far, under a game name that is not empty: the name of the
    resolved configuration when it has one, the client's name (or
    [unknown]) otherwise.  The other fields are those that were
    resolved. *)
Theorem prompt_config_always_named
    (io : bool) (game : option Z) (name : option string)
    (events : list Event) :
  let s := session (fst (run (connected resolveGamePromptConfig io game name)
                             events)) in
  let client := stringOr name "unknown" in
  exists lvl,
    (lvl <= levelCount s)%nat /\
    holds client (resolveGamePromptConfig game lvl) s /\
    nameFor client (resolveGamePromptConfig game lvl) <> EmptyString.
Proof.
  intros s client.
  assert (Hclient : client <> EmptyString).
  { subst client. destruct name as [[|c n]|]; cbn; discriminate. }
  assert (Hgen : forall evs w,
             resolvedSoFar resolveGamePromptConfig game client w ->
             resolvedSoFar resolveGamePromptConfig game client
                           (fst (run w evs))).
  { induction evs as [|e rest IH]; intros w Hn; [exact Hn |].
    rewrite run_cons. cbn [fst]. apply IH. now apply step_resolvedSoFar. }
  assert (Hstart : resolvedSoFar resolveGamePromptConfig game client
                     (connected resolveGamePromptConfig io game name)).
  { unfold resolvedSoFar, connected. cbn. repeat split.
    exists 0%nat. split; [lia |]. now apply withGameName_holds. }
  destruct (Hgen events _ Hstart) as [_ [_ [lvl [Hle Hh]]]].
  exists lvl. split; [exact Hle | split; [exact Hh |]].
  now apply nameFor_not_empty.
Qed.

End SessionBookkeeping.

(** A configured name is kept through a reload at INIT; the client's name,
    or [unknown], stands in for a game without one. *)
Example configured_name_is_kept :
  let named (game : option Z) (name : option string) :=
    option_map gameName
      (promptConfig
         (session
            (fst (LLMClient.run Scenario.parse Samples.namedResolve
                    (connected Samples.namedResolve true game name)
                    [Message (Scenario.frame "1"
                                (Scenario.phasePayload "INIT"))])))) in
  named (Some 0%Z) (Some "zelda") = Some (Some "aliens") /\
  named (Some 3%Z) (Some "zelda") = Some (Some "zelda") /\
  named (Some 3%Z) None = Some (Some "unknown").
Proof. vm_compute. repeat split. Qed.

Lemma level_counter_matches_announcements_witness :
  levelEnds (snd (LLMClient.run Scenario.parse Scenario.resolve Scenario.start
                    Scenario.endAfterCompletion))
  = seq 1 (levelCount
             (session (fst (LLMClient.run Scenario.parse Scenario.resolve
                              Scenario.start Scenario.endAfterCompletion)))
           - 0).
Proof.
  apply (level_counter_matches_announcements
           Scenario.parse Scenario.resolve
           Scenario.endAfterCompletion Scenario.start).
  reflexivity.
Defined.

Lemma phase_decided_by_head_witness :
  detectPhase (Samples.longHead +++ phaseMarker "INIT")
  = detectPhase Samples.longHead.
Proof.
  apply (phase_decided_by_head
           (Samples.longHead +++ phaseMarker "INIT") Samples.longHead).
  - vm_compute. reflexivity.
  - vm_compute. discriminate.
Defined.

(** ** The action parser, further *)

(** X9.  The parser never invents a token: for every response and every
    list of available actions the result is an element of the list or the
    fallback ACTION_NIL. *)
Theorem parseAction_never_illegal (llmResponse : string)
                                  (availableActions : list string) :
  In (parseAction llmResponse availableActions) availableActions \/
  parseAction llmResponse availableActions = ACTION_NIL.
Proof.
  rewrite parseAction_is_first_tier. unfold parseAction_first_tier.
  destruct (falsy llmResponse); [now right |].
  destruct (find _ availableActions) as [a|] eqn:Ef; [| now right].
  left. now apply find_some in Ef.
Qed.

Lemma includes_self (s : string) : includes s s = true.
Proof.
  apply includes_here. rewrite <- (append_empty_r s) at 1.
  apply startsWith_append.
Qed.

Lemma token_roundtrip (availableActions : list string) (a : string) :
  In a availableActions ->
  a <> EmptyString ->
  toUpperCase a = a ->
  (forall b, In b availableActions -> includes a b = true -> b = a) ->
  parseAction a availableActions = a.
Proof.
  intros Hin Hne Hupper Hapart.
  rewrite parseAction_is_first_tier. unfold parseAction_first_tier.
  destruct a as [|c a']; [contradiction |]. cbn [falsy].
  rewrite Hupper.
  destruct (find (fun action => includes (String c a') action)
                 availableActions) as [b|] eqn:Ef.
  - apply find_some in Ef. destruct Ef as [Hb Hinc]. now apply Hapart.
  - pose proof (find_none _ _ Ef _ Hin) as Hf. cbn beta in Hf.
    rewrite includes_self in Hf. discriminate.
Qed.

(** X10.  Printing then parsing a token gives the token back: in a list
    of upper-case tokens of which none occurs inside another, a response
    that consists of one token is parsed to that token.  The action
    vocabulary is such a list, so each of its tokens parses to itself. *)
Theorem parseAction_token_roundtrip (availableActions : list string)
    (a : string)
    (Hin : In a availableActions)
    (Hne : a <> EmptyString)
    (Hupper : toUpperCase a = a)
    (Hapart : forall b, In b availableActions -> includes a b = true -> b = a) :
  parseAction a availableActions = a /\
  (forall v, In v VALID_ACTIONS -> parseAction v VALID_ACTIONS = v).
Proof.
  split; [now apply token_roundtrip |].
  intros v Hv. apply (token_roundtrip VALID_ACTIONS v Hv).
  - now destruct (valid_action_upper v Hv).
  - now destruct (valid_action_upper v Hv).
  - intros b Hb. unfold VALID_ACTIONS in Hv, Hb. cbn [In] in Hv, Hb.
    repeat (destruct Hv as [Hv|Hv]; [subst v |]); try contradiction;
      repeat (destruct Hb as [Hb|Hb]; [subst b |]); try contradiction;
      vm_compute; intros H; first [reflexivity | discriminate].
Qed.

Lemma parseAction_token_roundtrip_witness :
  parseAction "LEFT" ["UP"; "LEFT"] = "LEFT".
Proof.
  apply (parseAction_token_roundtrip ["UP"; "LEFT"] "LEFT").
  - right. now left.
  - discriminate.
  - reflexivity.
  - intros b [Hb|[Hb|[]]]; subst b; vm_compute; intros H;
      first [reflexivity | discriminate].
Defined.

(** ** The input composer, further *)

Lemma tickState_not_empty (sso : StateObservation) : falsy (tickState sso) = false.
Proof. reflexivity. Qed.

(** X11.  How the layers of the user message compose: the per-tick state
    block is always present and always last; each of the game and level
    contexts that resolves to a non-empty text comes before it, in that
    order, followed by one blank line; an absent or empty context leaves
    no trace. *)
Theorem user_message_layers (sso : StateObservation) (cfg : PromptConfig) :
  let game := resolveTemplate (gameContent cfg) sso (gameName cfg) in
  let level := resolveTemplate (levelContent cfg) sso (gameName cfg) in
  userMessage (buildPrompt sso (Some cfg))
  = match filterBoolean [game; level] with
    | [] => tickState sso
    | [one] => one +++ (nl +++ nl) +++ tickState sso
    | first :: second :: _ =>
        first +++ (nl +++ nl) +++ second +++ (nl +++ nl) +++ tickState sso
    end.
Proof.
  intros game level. cbn [buildPrompt userMessage]. fold game level.
  destruct game as [g|], level as [l|]; cbn [filterBoolean];
    try destruct (falsy g); try destruct (falsy l);
    rewrite ?tickState_not_empty; reflexivity.
Qed.

(** X12.  A layer without an opening brace is used as it is, and an
    absent or empty layer resolves to nothing. *)
Theorem resolveTemplate_plain_text (content : string) (sso : StateObservation)
    (name : option string)
    (Hplain : hasChar "{" content = false) :
  resolveTemplate (Some content) sso name
  = (if falsy content then None else Some content) /\
  resolveTemplate None sso name = None.
Proof.
  split; [| reflexivity]. unfold resolveTemplate.
  destruct (falsy content); [reflexivity |].
  rewrite <- (append_empty_r content) at 1.
  rewrite replace_plain by exact Hplain.
  cbn. now rewrite append_empty_r.
Qed.

Lemma resolveTemplate_plain_text_witness :
  resolveTemplate (Some "Avoid the aliens; shoot when aligned.")
                  Scenario.sampleObservation None
  = Some "Avoid the aliens; shoot when aligned.".
Proof.
  apply (resolveTemplate_plain_text "Avoid the aliens; shoot when aligned."
           Scenario.sampleObservation None).
  reflexivity.
Defined.

(* ===================================================================== *)
(** * The prompt store *)
(* ===================================================================== *)

Import PromptStore.

Section ResolutionFacts.

Variable getCachedGameConfig : option Z -> option GameConfig.
Variable lookupTemplate : string -> option Template.

Local Abbreviation resolve :=
  (PromptStore.resolveGamePromptConfig getCachedGameConfig lookupTemplate).
Local Abbreviation defaults := (PromptStore.defaultPromptConfig lookupTemplate).

Lemma truthy_Some (x : option string) :
  truthy x = true -> exists v, x = Some v /\ v <> EmptyString.
Proof.
  destruct x as [[|c v]|]; try discriminate.
  intros _. exists (String c v). split; [reflexivity | discriminate].
Qed.

(** X13.  The system layer is never lost: when the [default-system]
    template is missing, or has a text that is not empty, every
    resolution, for every game and level, with or without a game
    configuration, whatever template the configuration names, yields a
    system text that is not empty. *)
Theorem system_content_never_empty (gameId : option Z) (levelId : nat)
    (Hdefault : forall t, lookupTemplate "default-system" = Some t ->
                          truthy (t_content t) = true) :
  exists text,
    systemContent (resolve gameId levelId) = Some text /\
    text <> EmptyString.
Proof.
  assert (Hd : exists text, systemContent defaults = Some text /\
                            text <> EmptyString).
  { unfold PromptStore.defaultPromptConfig. cbn [systemContent].
    destruct (lookupTemplate "default-system") as [t|] eqn:Et.
    - apply truthy_Some. now apply Hdefault.
    - exists DEFAULT_SYSTEM. split; [reflexivity | discriminate]. }
  unfold PromptStore.resolveGamePromptConfig.
  destruct (getCachedGameConfig gameId) as [config|]; [| exact Hd].
  cbn [systemContent].
  match goal with
  | |- context [if truthy ?x then _ else _] => destruct (truthy x) eqn:Et
  end.
  - now apply truthy_Some.
  - exact Hd.
Qed.

(** Precedence inside a context: an override that is not empty is used
    whatever template the context names; without an override the content
    of the named template is used; and a context that names a template
    which does not exist resolves to nothing. *)
Lemma context_precedence (ctx : Context) :
  (truthy (customOverride ctx) = true ->
   contextContent lookupTemplate (Some ctx) = customOverride ctx) /\
  (truthy (customOverride ctx) = false ->
   forall id t,
     PromptStore.templateId ctx = Some id -> id <> EmptyString ->
     lookupTemplate id = Some t ->
     contextContent lookupTemplate (Some ctx) = t_content t) /\
  (truthy (customOverride ctx) = false ->
   forall id,
     PromptStore.templateId ctx = Some id ->
     lookupTemplate id = None ->
     contextContent lookupTemplate (Some ctx) = None).
Proof.
  unfold contextContent. repeat split.
  - intros H. now rewrite H.
  - intros H id t Hid Hne Ht. rewrite H, Hid. unfold contentOf.
    rewrite Ht. destruct id; [contradiction | reflexivity].
  - intros H id Hid Ht. rewrite H, Hid. unfold contentOf. rewrite Ht.
    now destruct (truthy (Some id)).
Qed.

(** The game and level layers of a resolution are the contents of the
    contexts stored for the game and for that level. *)
Lemma resolve_layers (gameId : option Z) (levelId : nat) (config : GameConfig)
                     (levels : list (string * option Context)) :
  getCachedGameConfig gameId = Some config ->
  progressionContexts config = Some levels ->
  gameContent (resolve gameId levelId)
  = contextContent lookupTemplate (gameContext config) /\
  levelContent (resolve gameId levelId)
  = match property (numberToString (Z.of_nat levelId)) levels with
    | Some ctx => contextContent lookupTemplate ctx
    | None => None
    end.
Proof.
  intros Hc Hl. unfold PromptStore.resolveGamePromptConfig.
  rewrite Hc. cbn [gameContent levelContent]. now rewrite Hl.
Qed.

End ResolutionFacts.

Lemma to_int_proper (z : Z) :
  Z.to_int z <> Decimal.Pos Decimal.Nil /\
  Z.to_int z <> Decimal.Neg Decimal.Nil.
Proof.
  pose proof (DecimalZ.to_of (Z.to_int z)) as H.
  rewrite DecimalZ.of_to in H. rewrite H.
  destruct (Z.to_int z) as [d|d]; unfold Decimal.norm, Decimal.unorm;
    destruct (Decimal.nzhead d); split; discriminate.
Qed.

(** Two integers with the same decimal text are equal. *)
Lemma numberToString_inj (a b : Z) :
  numberToString a = numberToString b -> a = b.
Proof.
  unfold numberToString. intros H. apply DecimalZ.to_int_inj.
  destruct (to_int_proper a) as [Ha1 Ha2], (to_int_proper b) as [Hb1 Hb2].
  pose proof (NilZero.isi _ Ha1 Ha2) as Ia.
  pose proof (NilZero.isi _ Hb1 Hb2) as Ib.
  rewrite H in Ia. congruence.
Qed.

(** X14.  The contexts of the levels are kept apart: after a context is
    stored for one level, the resolution of that level uses it (its
    override when there is one), and the resolution of every other level
    gives what it gave before, for every game configuration and whatever
    contexts were stored already. *)
Theorem level_contexts_are_separate
    (before after : option Z -> option GameConfig)
    (lookupTemplate : string -> option Template)
    (gameId : option Z) (config : GameConfig)
    (level other : nat) (ctx : Context)
    (Hbefore : before gameId = Some config)
    (Hafter : after gameId = Some (withLevel level (Some ctx) config))
    (Hother : other <> level) :
  levelContent
    (PromptStore.resolveGamePromptConfig after lookupTemplate gameId level)
  = contextContent lookupTemplate (Some ctx) /\
  (truthy (customOverride ctx) = true ->
   levelContent
     (PromptStore.resolveGamePromptConfig after lookupTemplate gameId level)
   = customOverride ctx) /\
  levelContent
    (PromptStore.resolveGamePromptConfig after lookupTemplate gameId other)
  = levelContent
      (PromptStore.resolveGamePromptConfig before lookupTemplate gameId other).
Proof.
  unfold PromptStore.resolveGamePromptConfig. rewrite Hbefore, Hafter.
  cbn [levelContent withLevel progressionContexts property].
  rewrite String.eqb_refl.
  assert (Hkey : String.eqb (numberToString (Z.of_nat other))
                            (numberToString (Z.of_nat level)) = false).
  { apply String.eqb_neq. intros H. apply numberToString_inj in H.
    apply Hother. lia. }
  rewrite Hkey. repeat split.
  intros Ho. now apply (proj1 (context_precedence lookupTemplate ctx)).
Qed.

Lemma level_contexts_are_separate_witness :
  levelContent
    (PromptStore.resolveGamePromptConfig
       (fun _ => Some (withLevel 10 (Some {| PromptStore.templateId := None;
                                             customOverride := Some "Boss level." |})
                         Samples.aliensConfig))
       Samples.disk (Some 0%Z) 1)
  = levelContent
      (PromptStore.resolveGamePromptConfig Samples.configs Samples.disk
         (Some 0%Z) 1).
Proof.
  apply (level_contexts_are_separate Samples.configs
           (fun _ => Some (withLevel 10
                             (Some {| PromptStore.templateId := None;
                                      customOverride := Some "Boss level." |})
                             Samples.aliensConfig))
           Samples.disk (Some 0%Z) Samples.aliensConfig 10 1
           {| PromptStore.templateId := None;
              customOverride := Some "Boss level." |});
    [reflexivity | reflexivity | discriminate].
Defined.

Lemma system_content_never_empty_witness :
  exists text,
    systemContent
      (PromptStore.resolveGamePromptConfig Samples.configs Samples.disk
         (Some 0%Z) 3) = Some text /\
    text <> EmptyString.
Proof.
  apply (system_content_never_empty Samples.configs Samples.disk (Some 0%Z) 3).
  intros t Ht. vm_compute in Ht. discriminate.
Defined.

Section CacheFacts.

Variable A : Type.

Lemma mapGet_mapSet (key : string) (v : A * Z) (m : CacheMap A) :
  mapGet key (mapSet key v m) = Some v.
Proof.
  induction m as [|[k old] m IH]; cbn [mapSet mapGet].
  - now rewrite String.eqb_refl.
  - destruct (String.eqb key k) eqn:E; cbn [mapGet]; rewrite E;
      [reflexivity | exact IH].
Qed.

Lemma mapGet_mapSet_other (key other : string) (v : A * Z) (m : CacheMap A) :
  other <> key -> mapGet other (mapSet key v m) = mapGet other m.
Proof.
  intros Hne. induction m as [|[k old] m IH]; cbn [mapSet mapGet].
  - apply String.eqb_neq in Hne. now rewrite Hne.
  - destruct (String.eqb key k) eqn:E; cbn [mapGet].
    + apply String.eqb_eq in E. subst k.
      apply String.eqb_neq in Hne. now rewrite Hne.
    + now rewrite IH.
Qed.

End CacheFacts.

(** X15.  The template cache: a template read from the disk at time
    [clock] is served from the cache, whatever the disk holds by then,
    at every time less than 30000 ms after [clock]; from 30000 ms on the
    disk is read again; a template that does not exist is never cached;
    and after [invalidateCache] the disk is read at once. *)
Theorem template_cache_ttl
    (disk disk' : string -> option Template) (cache : CacheMap Template)
    (now clock later clock' : Z) (id : string) (t : Template)
    (Hmiss : mapGet id cache = None)
    (Hdisk : disk id = Some t) :
  let loaded := snd (getCachedTemplate disk cache now clock id) in
  fst (getCachedTemplate disk cache now clock id) = Some t /\
  ((later - clock < 30000)%Z ->
   getCachedTemplate disk' loaded later clock' id = (Some t, loaded)) /\
  ((30000 <= later - clock)%Z ->
   fst (getCachedTemplate disk' loaded later clock' id) = disk' id) /\
  fst (getCachedTemplate disk' (invalidateCache loaded) later clock' id)
  = disk' id /\
  (disk' id = None ->
   getCachedTemplate disk' cache later clock' id = (None, cache)).
Proof.
  intros loaded.
  assert (Hloaded : loaded = mapSet id (t, clock) cache).
  { subst loaded. unfold getCachedTemplate. now rewrite Hmiss, Hdisk. }
  repeat split.
  - unfold getCachedTemplate. now rewrite Hmiss, Hdisk.
  - intros Hin. unfold getCachedTemplate.
    rewrite Hloaded, mapGet_mapSet.
    apply Z.ltb_lt in Hin. unfold CACHE_TTL_MS. now rewrite Hin.
  - intros Hout. unfold getCachedTemplate.
    rewrite Hloaded, mapGet_mapSet.
    apply Z.ltb_ge in Hout. unfold CACHE_TTL_MS. rewrite Hout.
    now destruct (disk' id).
  - unfold getCachedTemplate, invalidateCache. cbn [mapGet].
    now destruct (disk' id).
  - intros Hnone. unfold getCachedTemplate. now rewrite Hmiss, Hnone.
Qed.

Lemma template_cache_ttl_witness :
  getCachedTemplate (fun _ => None)
    (snd (getCachedTemplate Samples.disk [] 1000 1001 "aliens-basics"))
    31000 31000 "aliens-basics"
  = (Some Samples.aliensTemplate,
     snd (getCachedTemplate Samples.disk [] 1000 1001 "aliens-basics")).
Proof.
  apply (proj1 (proj2 (template_cache_ttl Samples.disk (fun _ => None) []
                         1000 1001 31000 31000 "aliens-basics"
                         Samples.aliensTemplate eq_refl eq_refl))).
  reflexivity.
Defined.

Section IndexFacts.

Lemma findIndex_None (id : string) (entries : list IndexEntry) :
  findIndex id entries = None <-> ~ In id (map e_id entries).
Proof.
  induction entries as [|e rest IH]; cbn [findIndex map In].
  - split; [intros _ [] | reflexivity].
  - destruct (String.eqb (e_id e) id) eqn:E.
    + apply String.eqb_eq in E. split; [discriminate | intros H].
      exfalso. apply H. now left.
    + apply String.eqb_neq in E.
      destruct (findIndex id rest) as [i|].
      * split; [discriminate | intros H]. exfalso.
        assert (Hrest : ~ In id (map e_id rest))
          by (intros Hin; apply H; now right).
        apply IH in Hrest. discriminate.
      * split; [intros _ [H|H] | reflexivity];
          [contradiction | now apply (proj1 IH)].
Qed.

End IndexFacts.

Section IndexUpdates.

Lemma setAt_found (id : string) (entry : IndexEntry) (entries : list IndexEntry) :
  forall i,
    e_id entry = id ->
    findIndex id entries = Some i ->
    map e_id (setAt i entry entries) = map e_id entries /\
    findIndex id (setAt i entry entries) = Some i /\
    nth_error (setAt i entry entries) i = Some entry /\
    filter (otherThan id) (setAt i entry entries)
    = filter (otherThan id) entries /\
    List.length (setAt i entry entries) = List.length entries.
Proof.
  induction entries as [|e rest IH]; intros i Hid Hfind; [discriminate |].
  cbn [findIndex] in Hfind.
  destruct (String.eqb (e_id e) id) eqn:E.
  - inversion Hfind; subst i. cbn [setAt map findIndex nth_error filter length].
    apply String.eqb_eq in E. unfold otherThan.
    rewrite Hid, E, String.eqb_refl. cbn [negb]. repeat split; reflexivity.
  - destruct (findIndex id rest) as [j|] eqn:Ej; [| discriminate].
    inversion Hfind; subst i.
    destruct (IH j Hid eq_refl) as [Hm [Hf [Hn [Hflt Hlen]]]].
    assert (Ho : otherThan id e = true) by (unfold otherThan; now rewrite E).
    cbn [setAt map findIndex nth_error filter length].
    rewrite Ho, E, Hm, Hf, Hn, Hflt, Hlen.
    repeat split; reflexivity.
Qed.

Lemma push_fresh (id : string) (entry : IndexEntry) (entries : list IndexEntry) :
  e_id entry = id ->
  findIndex id entries = None ->
  findIndex id (entries ++ [entry]) = Some (List.length entries) /\
  nth_error (entries ++ [entry]) (List.length entries) = Some entry /\
  filter (otherThan id) (entries ++ [entry]) = entries.
Proof.
  intros Hid. induction entries as [|e rest IH]; intros Hfind.
  - cbn. unfold otherThan. rewrite Hid, String.eqb_refl. repeat split.
  - cbn [findIndex] in Hfind.
    destruct (String.eqb (e_id e) id) eqn:E; [discriminate |].
    destruct (findIndex id rest) eqn:Ej; [discriminate |].
    destruct (IH eq_refl) as [Hf [Hn Hflt]].
    assert (Ho : otherThan id e = true) by (unfold otherThan; now rewrite E).
    cbn [app findIndex length nth_error filter].
    rewrite Ho, E, Hf, Hn, Hflt. repeat split.
Qed.

End IndexUpdates.

(** X16.  What [saveTemplate] does to the index: afterwards the index
    has an entry for the template's id, the first one with that id, and it
    carries the saved name, layer and category; the entries with other ids
    are untouched and keep their order; the index grows by one entry when
    the id is new and keeps its length otherwise; and an index in which no
    id occurs twice stays so. *)
Theorem saveTemplate_index (now : string) (entries : list IndexEntry)
                           (template : Template) :
  let entries' := snd (saveTemplate now entries template) in
  let id := t_id template in
  (exists i,
      findIndex id entries' = Some i /\
      nth_error entries' i
      = Some {| e_id := id; e_name := t_name template;
                e_layer := t_layer template;
                e_category := t_category template |}) /\
  filter (otherThan id) entries' = filter (otherThan id) entries /\
  List.length entries'
  = (match findIndex id entries with
     | Some _ => List.length entries
     | None => S (List.length entries)
     end) /\
  (NoDup (map e_id entries) -> NoDup (map e_id entries')).
Proof.
  intros entries' id. subst entries'. unfold saveTemplate. cbn [snd t_id t_name t_layer t_category].
  fold id.
  set (entry := {| e_id := id; e_name := t_name template;
                   e_layer := t_layer template;
                   e_category := t_category template |}).
  destruct (findIndex id entries) as [i|] eqn:Ef.
  - destruct (setAt_found id entry entries i eq_refl Ef)
      as [Hm [Hf [Hn [Hflt Hlen]]]].
    repeat split; try assumption.
    + exists i. now split.
    + now rewrite Hm.
  - destruct (push_fresh id entry entries eq_refl Ef) as [Hf [Hn Hflt]].
    repeat split.
    + exists (List.length entries). now split.
    + rewrite Hflt. clear - Ef.
      induction entries as [|e rest IH]; [reflexivity |].
      cbn [findIndex] in Ef. cbn [filter].
      destruct (String.eqb (e_id e) id) eqn:E; [discriminate |].
      destruct (findIndex id rest); [discriminate |].
      assert (Ho : otherThan id e = true) by (unfold otherThan; now rewrite E).
      rewrite Ho. now rewrite <- IH.
    + rewrite length_app. cbn. lia.
    + intros Hnd. rewrite map_app. cbn [map].
      apply NoDup_app; [exact Hnd | repeat constructor; intros [] |].
      intros x Hx [Hid|[]]. subst x. cbn [e_id] in Hx.
      now apply findIndex_None in Ef.
Qed.

(** X17.  The creation time is set once: a first save stamps it with its
    time, every later save of the saved template keeps it and only moves
    the update time; the identity and the content of the template are
    never touched by a save. *)
Theorem createdAt_set_once (now1 now2 : string)
    (entries1 entries2 : list IndexEntry) (template : Template)
    (Hnow : now1 <> EmptyString) :
  let first := fst (saveTemplate now1 entries1 template) in
  let second := fst (saveTemplate now2 entries2 first) in
  (t_createdAt template = None -> t_createdAt first = Some now1) /\
  t_createdAt second = t_createdAt first /\
  t_updatedAt first = Some now1 /\
  t_updatedAt second = Some now2 /\
  t_id second = t_id template /\
  t_content second = t_content template.
Proof.
  intros first second. subst second first.
  unfold saveTemplate.
  cbn [fst t_createdAt t_updatedAt t_id t_content].
  repeat split.
  - intros Hnone. now rewrite Hnone.
  - destruct (t_createdAt template) as [c|].
    + destruct c as [|x c]; cbn [falsy].
      * destruct now1; [contradiction | reflexivity].
      * reflexivity.
    + destruct now1; [contradiction | reflexivity].
Qed.

Lemma createdAt_set_once_witness :
  t_createdAt
    (fst (saveTemplate "2026-02-01T00:00:00.000Z" []
            (fst (saveTemplate "2026-01-01T00:00:00.000Z" []
                    Samples.aliensTemplate))))
  = t_createdAt
      (fst (saveTemplate "2026-01-01T00:00:00.000Z" [] Samples.aliensTemplate)).
Proof.
  apply (createdAt_set_once "2026-01-01T00:00:00.000Z"
           "2026-02-01T00:00:00.000Z" [] [] Samples.aliensTemplate).
  discriminate.
Defined.

Import TemplateUse.

Lemma contextUses_iff (id : string) (ctx : option Context) :
  contextUses id ctx = true <->
  exists c, ctx = Some c /\ templateId c = Some id.
Proof.
  unfold contextUses. split.
  - destruct ctx as [c|]; [| discriminate].
    destruct (templateId c) as [t|] eqn:Et; [| discriminate].
    intros H. apply String.eqb_eq in H. subst t. now exists c.
  - intros [c [Hc Ht]]. subst ctx. rewrite Ht. apply String.eqb_refl.
Qed.

(** The tests of [deleteTemplate] find a configuration exactly when it
    names the template in one of the three places. *)
Lemma references_inUse (id : string) (gc : GameConfig) :
  references id gc = true <-> inUse id gc.
Proof.
  unfold references, inUse, asSystemTemplate, inGameContext, inLevelContext.
  rewrite !orb_true_iff, contextUses_iff, existsb_exists. split.
  - intros [[Hs | Hg] | [[level ctx] [Hin Hc]]].
    + left. destruct (systemTemplateId gc) as [t|]; [| discriminate].
      apply String.eqb_eq in Hs. now subst t.
    + right. left. exact Hg.
    + right. right. cbn [snd] in Hc. apply contextUses_iff in Hc.
      destruct Hc as [c [Hc Ht]]. subst ctx.
      destruct (progressionContexts gc) as [levels|]; [| contradiction].
      now exists levels, level, c.
  - intros [Hs | [Hg | [levels [level [c [Hl [Hin Ht]]]]]]].
    + left. left. rewrite Hs. apply String.eqb_refl.
    + left. right. exact Hg.
    + right. exists (level, Some c). rewrite Hl. split; [exact Hin |].
      cbn [snd]. apply contextUses_iff. now exists c.
Qed.

Lemma find_first {A : Type} (f : A -> bool) (before after : list A) (x : A) :
  (forall y, In y before -> f y = false) -> f x = true ->
  find f (before ++ x :: after) = Some x.
Proof.
  intros Hb Hx. induction before as [|y before IH]; cbn [app find].
  - now rewrite Hx.
  - rewrite (Hb y (or_introl eq_refl)). apply IH.
    intros z Hz. apply Hb. now right.
Qed.

(** X18.  A template in use is never deleted.  [deleteTemplate] answers
    with an error, and writes nothing, exactly when some game
    configuration names the template: as its system template, in its game
    context, or in the context of one of its levels.  The error names the
    first such game, by its name or else by its number.  When no
    configuration names the template, the index it writes has no entry
    for the id and all the other entries, in their order. *)
Theorem deleteTemplate_guard (gameConfigs : list GameConfig)
    (entries : list IndexEntry) (id : string) :
  ((exists gc, In gc gameConfigs /\ inUse id gc) <->
   (exists error, deleteTemplate gameConfigs entries id = DeleteError error)) /\
  (forall before gc after,
      gameConfigs = before ++ gc :: after ->
      (forall g, In g before -> ~ inUse id g) ->
      inUse id gc ->
      deleteTemplate gameConfigs entries id
      = DeleteError ("Template referenced by game "
                     +++ stringOr (gc_gameName gc)
                                  (numberToString (gc_gameId gc)))) /\
  ((forall gc, In gc gameConfigs -> ~ inUse id gc) ->
   exists entries',
     deleteTemplate gameConfigs entries id = DeleteOk entries' /\
     ~ In id (map e_id entries') /\
     filter (otherThan id) entries = entries').
Proof.
  unfold deleteTemplate. split; [| split].
  - split.
    + intros [gc [Hin Huse]]. apply references_inUse in Huse.
      destruct (find (references id) gameConfigs) as [g|] eqn:Ef.
      * eexists. reflexivity.
      * pose proof (find_none _ _ Ef _ Hin) as Hn. rewrite Huse in Hn.
        discriminate.
    + intros [error He].
      destruct (find (references id) gameConfigs) as [g|] eqn:Ef;
        [| discriminate].
      apply find_some in Ef. exists g. split; [apply Ef |].
      apply references_inUse, Ef.
  - intros before gc after Hcfg Hbefore Huse. subst gameConfigs.
    rewrite (find_first (references id) before after gc).
    + unfold gameLabel, stringOr. reflexivity.
    + intros g Hg. destruct (references id g) eqn:Er; [| reflexivity].
      exfalso. apply (Hbefore g Hg). now apply references_inUse.
    + now apply references_inUse.
  - intros Hnone. rewrite find_all_false.
    + eexists. split; [reflexivity |]. split; [| reflexivity].
      intros Hin. apply in_map_iff in Hin.
      destruct Hin as [e [He Hf]]. apply filter_In in Hf.
      destruct Hf as [_ Hf]. rewrite He, String.eqb_refl in Hf. discriminate.
    + intros g Hg. destruct (references id g) eqn:Er; [| reflexivity].
      exfalso. apply (Hnone g Hg). now apply references_inUse.
Qed.

(** A configuration that names the template for one of its levels only
    keeps it from being deleted. *)
Example level_use_blocks_delete :
  inLevelContext "aliens-basics" Samples.levelOnlyConfig /\
  deleteTemplate [Samples.levelOnlyConfig]
                 [Samples.entryOf Samples.aliensTemplate] "aliens-basics"
  = DeleteError "Template referenced by game 7" /\
  deleteTemplate [Samples.levelOnlyConfig]
                 [Samples.entryOf Samples.aliensTemplate] "other"
  = DeleteOk [Samples.entryOf Samples.aliensTemplate].
Proof.
  split; [| split; vm_compute; reflexivity].
  eexists _, "1", _. split; [reflexivity |]. split; [right; now left |].
  reflexivity.
Qed.

(** X19.  Saving a template under a new id and deleting it again
    restores the index, provided no game configuration has picked the
    template up in between. *)
Theorem save_then_delete (now : string) (gameConfigs : list GameConfig)
    (entries : list IndexEntry) (template : Template)
    (Hfresh : findIndex (t_id template) entries = None)
    (Hunused : forall gc, In gc gameConfigs ->
                          references (t_id template) gc = false) :
  deleteTemplate gameConfigs (snd (saveTemplate now entries template))
                 (t_id template)
  = DeleteOk entries.
Proof.
  unfold deleteTemplate.
  rewrite (find_all_false _ _ Hunused).
  unfold saveTemplate. cbn [snd t_id t_name t_layer t_category].
  rewrite Hfresh.
  destruct (push_fresh (t_id template)
              {| e_id := t_id template; e_name := t_name template;
                 e_layer := t_layer template;
                 e_category := t_category template |}
              entries eq_refl Hfresh) as [_ [_ Hflt]].
  unfold otherThan in Hflt. now rewrite Hflt.
Qed.

Lemma save_then_delete_witness :
  deleteTemplate []
    (snd (saveTemplate "2026-01-01T00:00:00.000Z" [] Samples.aliensTemplate))
    (t_id Samples.aliensTemplate)
  = DeleteOk [].
Proof.
  apply (save_then_delete "2026-01-01T00:00:00.000Z" [] []
           Samples.aliensTemplate).
  - reflexivity.
  - intros gc [].
Defined.

(* ===================================================================== *)
(** * The routes *)
(* ===================================================================== *)

Import Routes IdShape.

Section SlugFacts.

Lemma slugChar_not_dash (c : ascii) : isSlugChar c = true -> isDash c = false.
Proof.
  intros H. unfold isDash. destruct (Ascii.eqb c "-") eqn:E; [| reflexivity].
  apply Ascii.eqb_eq in E. subst c. discriminate.
Qed.

Lemma isDash_eq (c : ascii) : isDash c = true -> c = "-"%char.
Proof. apply Ascii.eqb_eq. Qed.

Lemma dashRuns_shape (s : string) :
  forall inRun,
    slugText (dashRuns inRun s) = true /\
    noDoubleDash (dashRuns inRun s) = true /\
    (inRun = true -> startsDash (dashRuns inRun s) = false).
Proof.
  induction s as [|c s IH]; intros inRun; [now repeat split |].
  cbn [dashRuns]. destruct (isSlugChar c) eqn:Ec.
  - destruct (IH false) as [H1 [H2 _]].
    pose proof (slugChar_not_dash c Ec) as Hd.
    cbn [slugText noDoubleDash startsDash]. rewrite Ec, Hd, H1, H2.
    now repeat split.
  - destruct inRun.
    + apply IH.
    + destruct (IH true) as [H1 [H2 H3]].
      cbn [slugText noDoubleDash startsDash]. rewrite H1, H2, (H3 eq_refl).
      repeat split. discriminate.
Qed.

Lemma dropLastDash_shape (s : string) :
  slugText s = true -> noDoubleDash s = true ->
  slugText (dropLastDash s) = true /\
  noDoubleDash (dropLastDash s) = true /\
  (startsDash s = false -> startsDash (dropLastDash s) = false) /\
  endsDash (dropLastDash s) = false.
Proof.
  induction s as [|c s IH]; intros Hs Hn; [now repeat split |].
  cbn [slugText noDoubleDash] in Hs, Hn.
  apply andb_true_iff in Hs. destruct Hs as [Hc Hs].
  apply andb_true_iff in Hn. destruct Hn as [Hcd Hn].
  destruct s as [|d s].
  - cbn [dropLastDash]. fold (isDash c). destruct (isDash c) eqn:Ed.
    + now repeat split.
    + cbn [slugText noDoubleDash startsDash endsDash].
      rewrite Ed, Hc. now repeat split.
  - destruct (IH Hs Hn) as [H1 [H2 [H3 H4]]].
    change (dropLastDash (String c (String d s)))
      with (String c (dropLastDash (String d s))).
    cbn [slugText noDoubleDash startsDash]. rewrite Hc, H1, H2.
    assert (Hpair : isDash c && startsDash (dropLastDash (String d s)) = false).
    { destruct (isDash c) eqn:Ed; [| reflexivity].
      cbn [andb]. apply H3. cbn [startsDash andb negb] in Hcd.
      cbn [startsDash]. now destruct (isDash d). }
    rewrite Hpair. cbn [andb negb].
    split; [reflexivity |]. split; [reflexivity |]. split; [trivial |].
    destruct (dropLastDash (String d s)) as [|x r] eqn:Er.
    + cbn [endsDash].
      destruct (isDash c) eqn:Ed; [| reflexivity].
      (* the rest was a single dash, which cannot follow a dash *)
      cbn [startsDash andb negb] in Hcd.
      destruct (isDash d) eqn:Edd; [discriminate |].
      destruct s as [|e s].
      * cbn [dropLastDash] in Er. fold (isDash d) in Er.
        rewrite Edd in Er. discriminate.
      * change (dropLastDash (String d (String e s)))
          with (String d (dropLastDash (String e s))) in Er.
        discriminate.
    + exact H4.
Qed.

Lemma stripDashes_shape (s : string) :
  slugText s = true -> noDoubleDash s = true ->
  wellFormedId (stripDashes s) = true.
Proof.
  intros Hs Hn. unfold wellFormedId, stripDashes.
  destruct s as [|c s]; [reflexivity |].
  cbn [slugText noDoubleDash] in Hs, Hn.
  apply andb_true_iff in Hs. destruct Hs as [Hc Hs'].
  apply andb_true_iff in Hn. destruct Hn as [Hcd Hn'].
  assert (Hs : slugText (String c s) = true)
    by (cbn [slugText]; now rewrite Hc, Hs').
  assert (Hn : noDoubleDash (String c s) = true)
    by (cbn [noDoubleDash]; now rewrite Hcd, Hn').
  fold (isDash c). destruct (isDash c) eqn:Ed.
  - destruct (dropLastDash_shape s Hs' Hn') as [H1 [H2 [H3 H4]]].
    cbn [andb negb] in Hcd.
    rewrite H1, H2, H4, H3; [reflexivity |].
    now destruct (startsDash s).
  - destruct (dropLastDash_shape (String c s) Hs Hn) as [H1 [H2 [H3 H4]]].
    rewrite H1, H2, H4, H3; [reflexivity | exact Ed].
Qed.

Lemma slugText_hasChar (c : ascii) (s : string) :
  isSlugChar c = false -> isDash c = false ->
  slugText s = true -> hasChar c s = false.
Proof.
  intros Hc Hd. induction s as [|x s IH]; intros H; [reflexivity |].
  cbn [slugText] in H. apply andb_true_iff in H. destruct H as [Hx Hs].
  cbn [hasChar]. rewrite (IH Hs), orb_false_r.
  destruct (Ascii.eqb x c) eqn:E; [| reflexivity].
  apply Ascii.eqb_eq in E. subst x. rewrite Hc, Hd in Hx. discriminate.
Qed.

Lemma templateId_shape_parts (name : string) :
  slugText (templateId name) = true /\
  noDoubleDash (templateId name) = true /\
  startsDash (templateId name) = false /\
  endsDash (templateId name) = false.
Proof.
  assert (Hw : wellFormedId (templateId name) = true).
  { unfold templateId.
    destruct (dashRuns_shape (toLowerCase name) false) as [H1 [H2 _]].
    now apply stripDashes_shape. }
  unfold wellFormedId in Hw.
  apply andb_true_iff in Hw. destruct Hw as [Hw He].
  apply andb_true_iff in Hw. destruct Hw as [Hw Hst].
  apply andb_true_iff in Hw. destruct Hw as [Hs Hn].
  repeat split; try assumption.
  - now destruct (startsDash (templateId name)).
  - now destruct (endsDash (templateId name)).
Qed.

(** X20.  The id that [POST /templates] derives from a name is made of
    lower-case letters, digits and single dashes, and neither starts nor
    ends with a dash.  It therefore holds no slash, dot or underscore: it
    names a file of the templates directory, and never the index. *)
Theorem templateId_shape (name : string) :
  wellFormedId (templateId name) = true /\
  hasChar "/" (templateId name) = false /\
  hasChar "." (templateId name) = false /\
  hasChar "_" (templateId name) = false /\
  templateId name <> "_index".
Proof.
  destruct (templateId_shape_parts name) as [Hs [Hn [Hst He]]].
  assert (Hw : wellFormedId (templateId name) = true)
    by (unfold wellFormedId; now rewrite Hs, Hn, Hst, He).
  assert (Hu : hasChar "_" (templateId name) = false)
    by (now apply slugText_hasChar).
  repeat split; try (now apply slugText_hasChar); try exact Hw.
  intros Heq. rewrite Heq in Hu. discriminate.
Qed.

Lemma lowerChar_slug (c : ascii) :
  isSlugChar c || isDash c = true -> lowerChar c = c.
Proof.
  intros H. unfold lowerChar.
  destruct (between 65 90 c) eqn:Eb; [| reflexivity].
  exfalso. unfold between in Eb. apply andb_true_iff in Eb.
  destruct Eb as [E1 E2]. apply Nat.leb_le in E1, E2.
  apply orb_true_iff in H. destruct H as [H|H].
  - unfold isSlugChar, between in H. apply orb_true_iff in H.
    destruct H as [H|H]; apply andb_true_iff in H; destruct H as [H1 H2];
      apply Nat.leb_le in H1, H2; lia.
  - apply isDash_eq in H. subst c. cbn in E1. lia.
Qed.

Lemma toLowerCase_slug (s : string) : slugText s = true -> toLowerCase s = s.
Proof.
  induction s as [|c s IH]; intros H; [reflexivity |].
  cbn [slugText] in H. apply andb_true_iff in H. destruct H as [Hc Hs].
  cbn [toLowerCase]. now rewrite (lowerChar_slug c Hc), (IH Hs).
Qed.

Lemma dashRuns_slug (s : string) :
  forall inRun,
    slugText s = true -> noDoubleDash s = true ->
    (inRun = true -> startsDash s = false) ->
    dashRuns inRun s = s.
Proof.
  induction s as [|c s IH]; intros inRun Hs Hn Hstart; [reflexivity |].
  cbn [slugText noDoubleDash] in Hs, Hn.
  apply andb_true_iff in Hs. destruct Hs as [Hc Hs].
  apply andb_true_iff in Hn. destruct Hn as [Hcd Hn].
  cbn [dashRuns]. destruct (isSlugChar c) eqn:Ec.
  - rewrite (IH false Hs Hn); [reflexivity | discriminate].
  - cbn [orb] in Hc. destruct inRun.
    + specialize (Hstart eq_refl). cbn [startsDash] in Hstart. congruence.
    + rewrite (isDash_eq c Hc) in *. rewrite (IH true Hs Hn); [reflexivity |].
      intros _. cbn [andb negb] in Hcd. now destruct (startsDash s).
Qed.

Lemma dropLastDash_id (s : string) : endsDash s = false -> dropLastDash s = s.
Proof.
  induction s as [|c s IH]; intros H; [reflexivity |].
  destruct s as [|d s].
  - cbn [endsDash] in H. cbn [dropLastDash]. fold (isDash c). now rewrite H.
  - change (dropLastDash (String c (String d s)))
      with (String c (dropLastDash (String d s))).
    rewrite IH; [reflexivity | exact H].
Qed.

(** X21.  Deriving an id is idempotent: the id of a name, taken as a
    name, gives the same id, so a template renamed to its own id keeps
    it. *)
Theorem templateId_idempotent (name : string) :
  templateId (templateId name) = templateId name.
Proof.
  destruct (templateId_shape_parts name) as [Hs [Hn [Hst He]]].
  unfold templateId at 1.
  rewrite (toLowerCase_slug _ Hs).
  rewrite (dashRuns_slug _ false Hs Hn) by discriminate.
  unfold stripDashes. destruct (templateId name) as [|c s] eqn:Eid;
    [reflexivity |].
  cbn [startsDash] in Hst. fold (isDash c). rewrite Hst.
  now apply dropLastDash_id.
Qed.

End SlugFacts.

Example templateId_examples :
  templateId "Aliens: Basics!" = "aliens-basics" /\
  templateId "_index" = "index" /\
  templateId "--A  b--" = "a-b" /\
  templateId "?!" = EmptyString.
Proof. vm_compute. repeat split. Qed.

Lemma saveTemplate_indexed (now : string) (entries : list IndexEntry)
                           (template : Template) :
  findIndex (t_id template) (snd (saveTemplate now entries template)) <> None.
Proof.
  unfold saveTemplate. cbn [snd t_id t_name t_layer t_category].
  set (entry := {| e_id := t_id template; e_name := t_name template;
                   e_layer := t_layer template;
                   e_category := t_category template |}).
  destruct (findIndex (t_id template) entries) as [i|] eqn:Ef.
  - destruct (setAt_found (t_id template) entry entries i eq_refl Ef)
      as [_ [Hf _]].
    rewrite Hf. discriminate.
  - destruct (push_fresh (t_id template) entry entries eq_refl Ef) as [Hf _].
    rewrite Hf. discriminate.
Qed.

(** X22.  [POST /templates] never overwrites: a template is created only
    under an id that is not empty, is derived from the name, and has no
    file yet; the created template carries the fields of the body, a
    category that is not empty, and its entry is in the index written.
    When a file with the id of the name exists the answer is the
    conflict, with nothing written. *)
Theorem createTemplate_never_overwrites
    (getTemplate : string -> option Template) (now : string)
    (entries : list IndexEntry) (body : CreateBody) :
  (forall saved entries',
      createTemplate getTemplate now entries body = Created saved entries' ->
      exists name,
        b_name body = Some name /\
        t_id saved = templateId name /\
        t_id saved <> EmptyString /\
        getTemplate (t_id saved) = None /\
        t_name saved = name /\
        t_content saved = b_content body /\
        t_category saved <> EmptyString /\
        findIndex (t_id saved) entries' <> None) /\
  (forall name layer content existing,
      b_name body = Some name -> b_layer body = Some layer ->
      b_content body = Some content ->
      name <> EmptyString -> layer <> EmptyString -> content <> EmptyString ->
      templateId name <> EmptyString ->
      getTemplate (templateId name) = Some existing ->
      exists error,
        createTemplate getTemplate now entries body = Conflict error).
Proof.
  unfold createTemplate. split.
  - intros saved entries' H.
    destruct (b_name body) as [name|]; [| discriminate].
    destruct (b_layer body) as [layer|]; [| discriminate].
    destruct (b_content body) as [content|] eqn:Econtent; [| discriminate].
    destruct (falsy name || falsy layer || falsy content); [discriminate |].
    destruct (falsy (templateId name)) eqn:Eid; [discriminate |].
    destruct (getTemplate (templateId name)) eqn:Eget; [discriminate |].
    match type of H with
    | (let '(_, _) := saveTemplate now entries ?t in _) = _ =>
        pose proof (saveTemplate_indexed now entries t) as Hentry;
        rewrite (surjective_pairing (saveTemplate now entries t)) in H
    end.
    injection H as Hsaved Hentries. subst saved entries'.
    exists name.
    split; [reflexivity |]. split; [reflexivity |].
    split; [intros He; cbn in He; rewrite He in Eid; discriminate |].
    split; [exact Eget |]. split; [reflexivity |]. split; [reflexivity |].
    split; [| exact Hentry].
    cbn. destruct (b_category body) as [[|x c]|]; cbn; discriminate.
  - intros name layer content existing Hn Hl Hc Hne Hle Hce Hid Hget.
    rewrite Hn, Hl, Hc.
    destruct name as [|a name]; [contradiction |].
    destruct layer; [contradiction |].
    destruct content; [contradiction |]. cbn [falsy orb].
    destruct (templateId (String a name)) eqn:Eid; [contradiction |].
    cbn [falsy]. rewrite Hget. eexists. reflexivity.
Qed.

Lemma createTemplate_never_overwrites_witness :
  exists error,
    createTemplate Samples.disk "2026-01-01T00:00:00.000Z" []
      {| b_name := Some "Aliens: basics"; b_layer := Some "game";
         b_category := None; b_content := Some "Shoot." |}
    = Conflict error.
Proof.
  apply (proj2 (createTemplate_never_overwrites Samples.disk
                  "2026-01-01T00:00:00.000Z" []
                  {| b_name := Some "Aliens: basics"; b_layer := Some "game";
                     b_category := None; b_content := Some "Shoot." |})
               "Aliens: basics" "game" "Shoot." Samples.aliensTemplate);
    try reflexivity; discriminate.
Defined.

Section LevelFacts.

Variable levelExists : string -> bool.

Lemma filter_nil_all {A : Type} (f : A -> bool) (l : list A) :
  filter f l = [] -> forall x, In x l -> f x = false.
Proof.
  induction l as [|a l IH]; intros H x Hx; [contradiction |].
  cbn [filter] in H. destruct (f a) eqn:Ea; [discriminate |].
  destruct Hx as [Hx|Hx]; [now subst | now apply IH].
Qed.

Lemma below_five (i : nat) : In i [0; 1; 2; 3; 4]%nat <-> (i < 5)%nat.
Proof. cbn [In]. lia. Qed.

(** X23.  The levels listed for a game: a level is listed when its file
    exists, and all five levels are listed when no level file exists at
    all; so the list is never empty, holds numbers below five only, and
    is strictly increasing. *)
Theorem gameLevels_listing (filepath : string) :
  let levels := gameLevels levelExists filepath in
  (forall i,
      In i levels <->
      (i < 5)%nat /\
      (levelExists (levelPath filepath i) = true \/
       forall j, (j < 5)%nat -> levelExists (levelPath filepath j) = false)) /\
  levels <> [] /\
  (1 <= List.length levels <= 5)%nat /\
  ascending levels.
Proof.
  intros levels. subst levels. unfold gameLevels.
  set (found := filter (fun i => levelExists (levelPath filepath i))
                       [0; 1; 2; 3; 4]%nat).
  assert (Hfound : forall i, In i found <->
                             (i < 5)%nat /\ levelExists (levelPath filepath i) = true).
  { intros i. subst found. rewrite filter_In, below_five. reflexivity. }
  assert (Hshape : (List.length found <= 5)%nat /\ ascending found).
  { subst found. cbn [filter].
    destruct (levelExists (levelPath filepath 0)),
             (levelExists (levelPath filepath 1)),
             (levelExists (levelPath filepath 2)),
             (levelExists (levelPath filepath 3)),
             (levelExists (levelPath filepath 4));
      cbn; repeat split; lia. }
  destruct found as [|a rest] eqn:Ef.
  - split; [| split; [discriminate | split; [cbn; lia | cbn; repeat split; lia]]].
    intros i. rewrite below_five. split.
    + intros Hi. split; [exact Hi |]. right. intros j Hj.
      apply below_five in Hj. exact (filter_nil_all _ _ Ef j Hj).
    + intros [Hi _]. exact Hi.
  - split; [| split; [discriminate | split; [| apply Hshape]]].
    + intros i. rewrite Hfound. split.
      * intros [Hi He]. split; [exact Hi | now left].
      * intros [Hi [He | Hnone]]; [now split |].
        exfalso. assert (Ha : In a (a :: rest)) by now left.
        apply Hfound in Ha. destruct Ha as [Ha5 Hae].
        rewrite (Hnone a Ha5) in Hae. discriminate.
    + destruct Hshape as [Hlen _]. cbn [List.length] in *. lia.
Qed.

End LevelFacts.

(* ===================================================================== *)
(** * Screenshot streaming *)
(* ===================================================================== *)

Import Server.

Lemma noRepeat_cons (a : Z) (l : list Z) :
  noRepeat (a :: l) <-> hd_error l <> Some a /\ noRepeat l.
Proof.
  destruct l as [|b l]; cbn [noRepeat hd_error].
  - split; [intros _; split; [discriminate | exact I] | trivial].
  - split.
    + intros [Hab Hl]. split; [| exact Hl]. intros H. inversion H. congruence.
    + intros [Hab Hl]. split; [| exact Hl]. intros H. apply Hab. now subst.
Qed.

(** X24.  Screenshot notifications are deduplicated by modification
    time: for modification times other than zero, the frames sent never
    repeat the time of the frame sent just before, and the first frame
    sent differs from the time remembered at the start. *)
Theorem screenshots_deduplicated (mtimes : list Z) (last : option Z)
    (Hlast : last <> Some 0%Z)
    (Hmtimes : Forall (fun m => m <> 0%Z) mtimes) :
  noRepeat (sentFrames last mtimes) /\
  (forall l, last = Some l -> hd_error (sentFrames last mtimes) <> Some l).
Proof.
  revert last Hlast. induction Hmtimes as [|m rest Hm Hrest IH];
    intros last Hlast.
  - split; [exact I | discriminate].
  - cbn [sentFrames]. unfold screenshotStep.
    assert (Hsend : noRepeat (m :: sentFrames (Some m) rest)).
    { destruct (IH (Some m)) as [Hn Hh]; [congruence |].
      apply noRepeat_cons. split; [now apply Hh | exact Hn]. }
    destruct last as [l|].
    + assert (Hl : (l =? 0)%Z = false) by (apply Z.eqb_neq; congruence).
      rewrite Hl. cbn [negb andb].
      destruct (m =? l)%Z eqn:E.
      * apply IH. exact Hlast.
      * split; [exact Hsend |].
        intros l' Hl'. inversion Hl'; subst l'. cbn [hd_error].
        apply Z.eqb_neq in E. congruence.
    + split; [exact Hsend | discriminate].
Qed.

Lemma screenshots_deduplicated_witness :
  noRepeat (sentFrames None [100; 100; 200; 200; 200; 100]%Z).
Proof.
  apply (screenshots_deduplicated [100; 100; 200; 200; 200; 100]%Z None).
  - discriminate.
  - repeat constructor; discriminate.
Defined.

(** With the modification time zero the test is skipped, and the same
    frame is sent again. *)
Example zero_mtime_is_resent :
  sentFrames None [0; 0]%Z = [0; 0]%Z /\
  sentFrames None [100; 100; 200]%Z = [100; 200]%Z.
Proof. vm_compute. split; reflexivity. Qed.
